(** * videojs-hlsjs: resolution registry and error-recovery policy

    A shallow embedding of the two stateful pieces of the plugin source
    (the [PodResolutionsPlugin] class and the error handling of the
    [Html5Hlsjs] source handler), followed by the properties proved of
    them.

    Conventions of the embedding:
    - JavaScript numbers that hold ids, heights, counters and delays are
      integers ([Z]); a property that may be [undefined] or [null] is an
      [option].
    - Objects that the code mutates become records threaded explicitly
      through the functions; calls into the host player, the streaming
      engine and the browser are recorded in logs kept in the state.
    - Pending [setTimeout] callbacks and [once] listeners are queues in the
      state, run by [elapse] and [emit_FRAG_LOADED].
    - Output to the console is not modelled. *)

From Stdlib Require Import ZArith List Sorted Lia.
From stdpp Require Import gmap strings list fin_maps.
From stdpp Require Import pretty.

Open Scope Z_scope.

(** ** JavaScript helpers *)

Module JS.

(** [a > b] on possibly-undefined numbers: a comparison with [undefined]
    is false. *)
Definition gt (a b : option Z) : bool :=
  match a, b with
  | Some x, Some y => y <? x
  | _, _ => false
  end.

(** [a === b] on possibly-undefined numbers. *)
Definition strict_eq (a b : option Z) : bool :=
  match a, b with
  | Some x, Some y => x =? y
  | None, None => true
  | _, _ => false
  end.

(** A property that holds [null], [undefined] or a number. *)
Inductive value :=
| null
| undefined
| number (n : Z).

(** [a === b] on such values: [null] and [undefined] are equal to
    themselves only. *)
Definition strict_eq_value (a b : value) : bool :=
  match a, b with
  | null, null => true
  | undefined, undefined => true
  | number x, number y => x =? y
  | _, _ => false
  end.

(** [Array.prototype.sort(cmp)].  ECMAScript requires the sort to be
    stable; for a consistent comparator the result is therefore the one
    computed here by a stable insertion sort.  [sort_insert cmp x l]
    places [x], which precedes the elements of [l] in the array, in front
    of the first element it does not compare greater than. *)
Fixpoint sort_insert {A} (cmp : A -> A -> Z) (x : A) (l : list A) : list A :=
  match l with
  | [] => [x]
  | y :: t => if cmp x y <=? 0 then x :: y :: t else y :: sort_insert cmp x t
  end.

Definition sort {A} (cmp : A -> A -> Z) (l : list A) : list A :=
  List.fold_right (sort_insert cmp) [] l.

(** [Array.prototype.find]. *)
Definition find {A} (p : A -> bool) (l : list A) : option A := List.find p l.

End JS.

(** ** The resolution registry ([PodResolutionsPlugin]) *)

Module PodResolutionsPlugin.

(** A resolution object as built by [_notifyVideoQualities].  The
    automatic entry has [id = -1] and no height, width or bitrate.  The
    [selectCallback] closure of an entry is not a field here: calling it
    is recorded, by the id of the entry, in the [called] log of the
    plugin. An absent [selected] property reads as [false]. *)
Record Resolution := mkResolution {
  id : Z;
  height : option Z;
  width : option Z;
  bitrate : option Z;
  label : string;
  selected : bool
}.

Definition set_selected (b : bool) (r : Resolution) : Resolution :=
  {| id := id r; height := height r; width := width r;
     bitrate := bitrate r; label := label r; selected := b |}.

(** The plugin instance.  [currentSelection] refers to one of the
    resolution objects (or is [null]/[undefined]); the code reads nothing
    but [.id] through that reference and never writes an id, so the field
    keeps the id of the object referred to ([None] when there is none:
    [currentSelection?.id] is then [undefined]).  [autoResolutionChosenId]
    is [null] at first and then whatever [select] was given: a number,
    [null] or, when the option was left out, [undefined].  [triggered]
    logs the events passed to [this.trigger], [called] the
    [selectCallback] invocations. *)
Record t := mk {
  currentSelection : option Z;
  resolutions : list Resolution;
  autoResolutionChosenId : JS.value;
  triggered : list string;
  called : list Z
}.

(** Field initialisers of the class. *)
Definition init : t :=
  {| currentSelection := None; resolutions := [];
     autoResolutionChosenId := JS.null;
     triggered := []; called := [] |}.

Definition trigger (e : string) (p : t) : t :=
  {| currentSelection := currentSelection p; resolutions := resolutions p;
     autoResolutionChosenId := autoResolutionChosenId p;
     triggered := triggered p ++ [e]; called := called p |}.

Definition set_resolutions (rs : list Resolution) (p : t) : t :=
  {| currentSelection := currentSelection p; resolutions := rs;
     autoResolutionChosenId := autoResolutionChosenId p;
     triggered := triggered p; called := called p |}.

Definition set_currentSelection (c : option Z) (p : t) : t :=
  {| currentSelection := c; resolutions := resolutions p;
     autoResolutionChosenId := autoResolutionChosenId p;
     triggered := triggered p; called := called p |}.

Definition set_autoResolutionChosenId (a : JS.value) (p : t) : t :=
  {| currentSelection := currentSelection p; resolutions := resolutions p;
     autoResolutionChosenId := a;
     triggered := triggered p; called := called p |}.

Definition call_selectCallback (r : Resolution) (p : t) : t :=
  {| currentSelection := currentSelection p; resolutions := resolutions p;
     autoResolutionChosenId := autoResolutionChosenId p;
     triggered := triggered p; called := called p ++ [id r] |}.

Definition getResolutions (p : t) : list Resolution := resolutions p.

(** [getSelected]: the first entry whose id is the automatic-mode
    reference. *)
Definition getSelected (p : t) : option Resolution :=
  JS.find (fun r => JS.strict_eq_value (JS.number (id r))
                                       (autoResolutionChosenId p))
          (resolutions p).

(** The comparator of [_sort]. *)
Definition compare (a b : Resolution) : Z :=
  if id a =? -1 then 1
  else if id b =? -1 then -1
  else if JS.gt (height a) (height b) then -1
  else if JS.strict_eq (height a) (height b) then 0
  else 1.

Definition _sort (p : t) : t :=
  set_resolutions (JS.sort compare (resolutions p)) p.

(** [add]: push every new entry, recompute [currentSelection], sort,
    notify. *)
Definition add (rs : list Resolution) (p : t) : t :=
  let p1 := set_resolutions (resolutions p ++ rs) p in
  let p2 := set_currentSelection (option_map id (getSelected p1)) p1 in
  trigger "resolutions-added" (_sort p2).

(** [remove]: keep the entries whose id differs, notify. *)
Definition remove (resolutionIndex : Z) (p : t) : t :=
  trigger "resolutions-removed"
    (set_resolutions
       (List.filter (fun r => negb (id r =? resolutionIndex)) (resolutions p)) p).

(** The argument of [select]; [autoResolutionChosenId] is [undefined]
    when the caller leaves it out. *)
Record options := mkOptions {
  opt_id : Z;
  opt_autoResolutionChosenId : JS.value;
  opt_fireCallback : bool
}.

(** The [for (const r of this.resolutions)] loop of [select]: the entry is
    rewritten in place and the rest of the array is visited in the plugin
    state left by the entry. *)
Fixpoint select_loop (o : options) (rs : list Resolution) (p : t)
    : list Resolution * t :=
  match rs with
  | [] => ([], p)
  | r :: rest =>
      let r' := set_selected (id r =? opt_id o) r in
      let p' :=
        if selected r' then
          let p1 := set_currentSelection (Some (id r')) p in
          if opt_fireCallback o then call_selectCallback r' p1 else p1
        else p in
      let (rest', p'') := select_loop o rest p' in
      (r' :: rest', p'')
  end.

(** The guard at the top of [select]:
    [this.currentSelection?.id === id &&
     this.autoResolutionChosenId === autoResolutionChosenId]. *)
Definition unchanged (o : options) (p : t) : bool :=
  JS.strict_eq (currentSelection p) (Some (opt_id o))
  && JS.strict_eq_value (autoResolutionChosenId p)
                        (opt_autoResolutionChosenId o).

Definition select (o : options) (p : t) : t :=
  if unchanged o p then p
  else
    let p1 := set_autoResolutionChosenId (opt_autoResolutionChosenId o) p in
    let (rs, p2) := select_loop o (resolutions p1) p1 in
    trigger "resolutions-changed" (set_resolutions rs p2).

(** Sequences of registry calls. *)
Inductive call :=
| Add (rs : list Resolution)
| Remove (resolutionIndex : Z)
| Select (o : options).

Definition step (p : t) (c : call) : t :=
  match c with
  | Add rs => add rs p
  | Remove k => remove k p
  | Select o => select o p
  end.

Definition run (cs : list call) (p : t) : t := List.fold_left step cs p.

End PodResolutionsPlugin.

(** ** The streaming engine (hls.js), as the source handler sees it *)

Module Hls.

(** [Hls.ErrorTypes], with the values hls.js gives them. *)
Module ErrorTypes.
Definition NETWORK_ERROR : string := "networkError".
Definition MEDIA_ERROR : string := "mediaError".
End ErrorTypes.

(** An entry of [hls.levels]. *)
Record Level := mkLevel {
  id : Z;
  height : Z;
  width : Z;
  bitrate : Z
}.

(** The properties of the engine instance that the handler reads. *)
Record props := mkProps {
  levels : list Level;
  loadLevel : Z;
  autoLevelEnabled : bool
}.

(** The methods and setters of the engine instance that the handler
    calls. *)
Inductive method :=
| recoverMediaError
| swapAudioCodec
| startLoad (startPosition : option Z)
| removeLevel (levelIndex : Z)
| set_currentLevel (newLevel : Z)
| set_log_warn_noop
| destroy.

(** What a call does to the readable properties is the engine's business:
    the handler is modelled against an arbitrary such reaction.
    [reference] is the one used in examples: [removeLevel] drops the level
    at the given index, the other calls leave [levels] and [loadLevel]
    alone. *)
Definition reaction := method -> props -> props.

Fixpoint remove_at {A} (n : nat) (l : list A) : list A :=
  match l, n with
  | [], _ => []
  | _ :: t, O => t
  | x :: t, S n' => x :: remove_at n' t
  end.

Definition reference : reaction := fun m h =>
  match m with
  | removeLevel i =>
      if i <? 0 then h
      else {| levels := remove_at (Z.to_nat i) (levels h);
              loadLevel := loadLevel h; autoLevelEnabled := autoLevelEnabled h |}
  | _ => h
  end.

End Hls.

(** ** The source handler ([Html5Hlsjs]) *)

Module Html5Hlsjs.

(** [data] of an [Hls.Events.ERROR] event. *)
Record ErrorData := mkErrorData {
  type : string;
  fatal : bool;
  details : string
}.

(** [data.details] of an [Hls.Events.LEVEL_LOADED] event. *)
Record LevelDetails := mkLevelDetails {
  live : bool;
  totalduration : Z;
  targetduration : Z
}.

(** The error object built by [_onError]. *)
Record Error := mkError {
  message : string;
  code : option Z
}.

(** The arrow functions that the handler hands to [setTimeout] and to
    [hls.once]. *)
Inductive closure :=
| retry_startLoad          (* () => this.hls.startLoad() *)
| reset_network_errorCount (* () => { this.errorCounts[NETWORK_ERROR] = 0 } *)
| empty_closure.           (* () => {} *)

(** A pending [setTimeout]. *)
Record timeout := mkTimeout {
  delay : Z;
  callback : closure
}.

(** The engine instance held in [this.hls]: its readable properties, the
    log of the calls made on it and the listeners registered with
    [hls.once(Hls.Events.FRAG_LOADED, ...)]. *)
Record hls_instance := mkHls {
  hls_props : Hls.props;
  hls_calls : list Hls.method;
  once_FRAG_LOADED : list closure
}.

(** [this.tech]: [tech_error] is what the [error] accessor installed by the
    handler returns ([None] while the tech keeps its own accessor),
    [tech_triggered] logs the events passed to [tech.trigger]. *)
Record tech_object := mkTech {
  tech_error : option Error;
  tech_triggered : list string
}.

(** The browser: the pending timeouts of [window], [navigator.onLine] and
    the events of the video element on which a handler of this instance is
    registered. *)
Record browser := mkBrowser {
  timeouts : list timeout;
  navigator_onLine : bool;
  videoElement_listeners : list string
}.

Record config := mkConfig {
  liveSyncDuration : option Z;
  liveSyncDurationCount : option Z
}.

Inductive duration := Infinity | Seconds (s : Z).

Record t := mk {
  errorCounts : gmap string Z;
  maxNetworkErrorRecovery : Z;
  hlsjsConfig : config;
  _duration : option duration;
  isLive : option bool;
  dvrDuration : option Z;
  edgeMargin : option Z;
  hls : hls_instance;
  tech : tech_object;
  podResolutions : PodResolutionsPlugin.t;  (* this.player.podResolutions() *)
  window : browser
}.

Definition set_errorCounts (c : gmap string Z) (s : t) : t :=
  mk c (maxNetworkErrorRecovery s) (hlsjsConfig s) (_duration s) (isLive s)
     (dvrDuration s) (edgeMargin s) (hls s) (tech s) (podResolutions s) (window s).

Definition set_hls (h : hls_instance) (s : t) : t :=
  mk (errorCounts s) (maxNetworkErrorRecovery s) (hlsjsConfig s) (_duration s)
     (isLive s) (dvrDuration s) (edgeMargin s) h (tech s) (podResolutions s)
     (window s).

Definition set_tech (x : tech_object) (s : t) : t :=
  mk (errorCounts s) (maxNetworkErrorRecovery s) (hlsjsConfig s) (_duration s)
     (isLive s) (dvrDuration s) (edgeMargin s) (hls s) x (podResolutions s)
     (window s).

Definition set_podResolutions (p : PodResolutionsPlugin.t) (s : t) : t :=
  mk (errorCounts s) (maxNetworkErrorRecovery s) (hlsjsConfig s) (_duration s)
     (isLive s) (dvrDuration s) (edgeMargin s) (hls s) (tech s) p (window s).

Definition set_window (w : browser) (s : t) : t :=
  mk (errorCounts s) (maxNetworkErrorRecovery s) (hlsjsConfig s) (_duration s)
     (isLive s) (dvrDuration s) (edgeMargin s) (hls s) (tech s)
     (podResolutions s) w.

(** The field initialisers of the class, around a given engine instance,
    tech, registry and browser. *)
Definition fresh (cfg : config) (h : hls_instance) (x : tech_object)
    (p : PodResolutionsPlugin.t) (w : browser) : t :=
  mk ∅ 5 cfg None None None None h x p w.

(** A number used as a condition. *)
Definition truthy (n : option Z) : bool :=
  match n with
  | Some v => negb (v =? 0)
  | None => false
  end.

Definition setTimeout (c : closure) (ms : Z) (s : t) : t :=
  set_window
    {| timeouts := timeouts (window s) ++ [mkTimeout ms c];
       navigator_onLine := navigator_onLine (window s);
       videoElement_listeners := videoElement_listeners (window s) |} s.

Definition removeEventListener (e : string) (s : t) : t :=
  set_window
    {| timeouts := timeouts (window s);
       navigator_onLine := navigator_onLine (window s);
       videoElement_listeners :=
         List.filter (fun e' => negb (String.eqb e' e))
                     (videoElement_listeners (window s)) |} s.

Definition hls_once_FRAG_LOADED (c : closure) (s : t) : t :=
  set_hls
    {| hls_props := hls_props (hls s); hls_calls := hls_calls (hls s);
       once_FRAG_LOADED := once_FRAG_LOADED (hls s) ++ [c] |} s.

Definition tech_set_error (e : Error) (s : t) : t :=
  set_tech {| tech_error := Some e; tech_triggered := tech_triggered (tech s) |} s.

Definition tech_trigger (e : string) (s : t) : t :=
  set_tech {| tech_error := tech_error (tech s);
              tech_triggered := tech_triggered (tech s) ++ [e] |} s.

Definition string_of_bool (b : bool) : string :=
  if b then "true" else "false".

(** The object [error] that [_onError] builds from the data of the
    event. *)
Definition error_of (data : ErrorData) : Error :=
  {| message := "HLS.js error: " +:+ type data +:+ " - fatal: "
                +:+ string_of_bool (fatal data) +:+ " - " +:+ details data;
     code := None |}.

(** [error.code = c]. *)
Definition with_code (c : Z) (error : Error) : Error :=
  {| message := message error; code := Some c |}.

Section Handler.

(** The engine's reaction to the calls made on it. *)
Variable engine : Hls.reaction.

(** A call [this.hls.m(...)]. *)
Definition hls_call (m : Hls.method) (s : t) : t :=
  set_hls
    {| hls_props := engine m (hls_props (hls s));
       hls_calls := hls_calls (hls s) ++ [m];
       once_FRAG_LOADED := once_FRAG_LOADED (hls s) |} s.

Definition dispose (s : t) : t :=
  let s := removeEventListener "play" s in
  let s := removeEventListener "error" s in
  let s := hls_call Hls.set_log_warn_noop s in
  hls_call Hls.destroy s.

Definition _getHumanErrorMsg (error : Error) : string := message error.

Definition _removeQuality (index : Z) (s : t) : t :=
  let s := hls_call (Hls.removeLevel index) s in
  let s := set_podResolutions
             (PodResolutionsPlugin.remove index (podResolutions s)) s in
  hls_call (Hls.set_currentLevel (-1)) s.

Definition _handleUnrecovarableError (error : Error) (s : t) : t :=
  if 1 <? Z.of_nat (length (List.filter (fun l => -1 <? Hls.id l)
                                        (Hls.levels (hls_props (hls s)))))
  then _removeQuality (Hls.loadLevel (hls_props (hls s))) s
  else
    let s := hls_call Hls.destroy s in
    let s := tech_set_error
               {| message := _getHumanErrorMsg error; code := code error |} s in
    tech_trigger "error" s.

Definition _handleMediaError (error : Error) (s : t) : t :=
  let count := errorCounts s !! Hls.ErrorTypes.MEDIA_ERROR in
  if JS.strict_eq count (Some 1) then
    hls_call Hls.recoverMediaError s
  else if JS.strict_eq count (Some 2) then
    let s := hls_call Hls.swapAudioCodec s in
    hls_call Hls.recoverMediaError s
  else if JS.gt count (Some 2) then
    _handleUnrecovarableError error s
  else s.

(** [a <= b] where [a] may be [undefined]. *)
Definition le_number (a : option Z) (b : Z) : bool :=
  match a with
  | Some x => x <=? b
  | None => false
  end.

Definition _handleNetworkError (error : Error) (s : t) : t :=
  if negb (navigator_onLine (window s)) then s
  else if le_number (errorCounts s !! Hls.ErrorTypes.NETWORK_ERROR)
                    (maxNetworkErrorRecovery s)
  then
    let s := setTimeout retry_startLoad 1000 s in
    hls_once_FRAG_LOADED reset_network_errorCount s
  else _handleUnrecovarableError error s.

Definition _onError (data : ErrorData) (s : t) : t :=
  let error := error_of data in
  let s :=
    if truthy (errorCounts s !! type data)
    then set_errorCounts
           (<[type data := default 0 (errorCounts s !! type data) + 1]>
              (errorCounts s)) s
    else set_errorCounts (<[type data := 1]> (errorCounts s)) s in
  if String.eqb (type data) Hls.ErrorTypes.NETWORK_ERROR then
    _handleNetworkError (with_code 2 error) s
  else if fatal data
          && String.eqb (type data) Hls.ErrorTypes.MEDIA_ERROR
          && negb (String.eqb (details data) "manifestIncompatibleCodecsError")
  then _handleMediaError (with_code 3 error) s
  else if fatal data then _handleUnrecovarableError error s
  else s.

(** The [Hls.Events.LEVEL_LOADED] listener of [_initHlsjs]. *)
Definition on_LEVEL_LOADED (d : LevelDetails) (s : t) : t :=
  let cfg := hlsjsConfig s in
  let edge :=
    if truthy (liveSyncDuration cfg) then liveSyncDuration cfg
    else if truthy (liveSyncDurationCount cfg)
         then option_map (fun c => c * targetduration d) (liveSyncDurationCount cfg)
         else edgeMargin s in
  mk (errorCounts s)
     (if live d then 30 else maxNetworkErrorRecovery s)
     cfg
     (Some (if live d then Infinity else Seconds (totalduration d)))
     (Some (live d))
     (Some (totalduration d))
     edge
     (hls s) (tech s) (podResolutions s) (window s).

(** The [Hls.Events.LEVEL_SWITCHING] listener of [_initHlsjs]. *)
Definition on_LEVEL_SWITCHING (level : Z) (s : t) : t :=
  let auto := Hls.autoLevelEnabled (hls_props (hls s)) in
  set_podResolutions
    (PodResolutionsPlugin.select
       {| PodResolutionsPlugin.opt_id := if auto then -1 else level;
          PodResolutionsPlugin.opt_autoResolutionChosenId :=
            JS.number (if auto then level else -1);
          PodResolutionsPlugin.opt_fireCallback := false |}
       (podResolutions s)) s.

(** Running one of the closures. *)
Definition run_closure (c : closure) (s : t) : t :=
  match c with
  | retry_startLoad => hls_call (Hls.startLoad None) s
  | reset_network_errorCount =>
      set_errorCounts (<[Hls.ErrorTypes.NETWORK_ERROR := 0]> (errorCounts s)) s
  | empty_closure => s
  end.

(** The engine emits [Hls.Events.FRAG_LOADED]: the listeners registered
    with [once] are removed and run, in the order of registration. *)
Definition emit_FRAG_LOADED (s : t) : t :=
  let cs := once_FRAG_LOADED (hls s) in
  let s := set_hls {| hls_props := hls_props (hls s);
                      hls_calls := hls_calls (hls s);
                      once_FRAG_LOADED := [] |} s in
  List.fold_left (fun s c => run_closure c s) cs s.

(** [ms] milliseconds pass: the timeouts that are due are removed from the
    queue and run in the order in which they were set, the others come
    closer by [ms]. *)
Definition elapse (ms : Z) (s : t) : t :=
  let due := List.filter (fun x => delay x <=? ms) (timeouts (window s)) in
  let later := List.filter (fun x => negb (delay x <=? ms)) (timeouts (window s)) in
  let s := set_window
             {| timeouts := List.map (fun x => mkTimeout (delay x - ms) (callback x)) later;
                navigator_onLine := navigator_onLine (window s);
                videoElement_listeners := videoElement_listeners (window s) |} s in
  List.fold_left (fun s x => run_closure (callback x) s) due s.

(** [n] error events with the same data, one after the other. *)
Fixpoint errors (n : nat) (data : ErrorData) (s : t) : t :=
  match n with
  | O => s
  | S n' => _onError data (errors n' data s)
  end.

End Handler.

End Html5Hlsjs.

(** ** Predicates used in the statements *)

Module Spec.

Import PodResolutionsPlugin.

Definition is_auto (r : Resolution) : bool := id r =? -1.

(** [a] may stand before [b]: nothing but automatic entries follows an
    automatic entry, and a later entry is not higher than an earlier
    one. *)
Definition in_order (a b : Resolution) : bool :=
  if is_auto a then is_auto b
  else if is_auto b then true
  else match height a, height b with
       | Some x, Some y => y <=? x
       | _, _ => false
       end.

(** Descending order of height with the automatic entries last: every
    entry may stand before every later entry. *)
Definition sorted_desc (l : list Resolution) : Prop :=
  StronglySorted (fun a b => in_order a b = true) l.

(** Every entry but the automatic one carries a numeric height. *)
Definition has_height (r : Resolution) : bool :=
  is_auto r || match height r with Some _ => true | None => false end.

Definition levels_have_height (c : call) : Prop :=
  match c with
  | Add rs => Forall (fun r => has_height r = true) rs
  | _ => True
  end.

(** The invariant kept by every call of the registry. *)
Definition ordered (p : t) : Prop :=
  Forall (fun r => has_height r = true) (resolutions p)
  /\ sorted_desc (resolutions p).

(** What the loop of [select] with id [k] leaves of an entry. *)
Definition marked (k : Z) (r : Resolution) : Resolution :=
  set_selected (id r =? k) r.

(** The number of entries with [selected = true]. *)
Definition count_selected (l : list Resolution) : nat :=
  length (List.filter selected l).

Definition distinct_ids (l : list Resolution) : Prop := NoDup (List.map id l).

Definition no_entry_with_id (k : Z) (l : list Resolution) : Prop :=
  Forall (fun r => id r <> k) l.

(** The occurrence counters after one more error of type [ty]. *)
Definition counted (ty : string) (c : gmap string Z) : gmap string Z :=
  <[ty := default 0 (c !! ty) + 1]> c.

(** The handler state once the error of [data] has been counted. *)
Definition count_error (data : Html5Hlsjs.ErrorData) (s : Html5Hlsjs.t)
    : Html5Hlsjs.t :=
  Html5Hlsjs.set_errorCounts
    (counted (Html5Hlsjs.type data) (Html5Hlsjs.errorCounts s)) s.

(** The occurrence number of an error of type [ty] that arrives in
    state [s]. *)
Definition occurrence (ty : string) (s : Html5Hlsjs.t) : Z :=
  default 0 (Html5Hlsjs.errorCounts s !! ty) + 1.

(** The retry that the network policy schedules. *)
Definition retry : Html5Hlsjs.timeout :=
  Html5Hlsjs.mkTimeout 1000 Html5Hlsjs.retry_startLoad.

(** The number of levels of the engine that are not the automatic one. *)
Definition quality_levels (s : Html5Hlsjs.t) : Z :=
  Z.of_nat (length (List.filter (fun l => -1 <? Hls.id l)
              (Hls.levels (Html5Hlsjs.hls_props (Html5Hlsjs.hls s))))).

End Spec.

(** ** Examples *)

Module Examples.

Import PodResolutionsPlugin.

Definition r720 : Resolution := mkResolution 0 (Some 720) None None "720p" false.
Definition r1080 : Resolution := mkResolution 1 (Some 1080) None None "1080p" false.
Definition r480_selected : Resolution :=
  mkResolution 2 (Some 480) None None "480p" true.
Definition rAuto : Resolution := mkResolution (-1) None None None "Auto" false.

Definition select_0 : options := mkOptions 0 (JS.number 0) false.

(** A session with one quality level, a device that is online and
    nothing pending. *)
Definition one_level : Html5Hlsjs.t :=
  Html5Hlsjs.fresh
    (Html5Hlsjs.mkConfig None None)
    (Html5Hlsjs.mkHls (Hls.mkProps [Hls.mkLevel 0 720 1280 2000000] 0 true) []
                      [Html5Hlsjs.empty_closure])
    (Html5Hlsjs.mkTech None [])
    (add [r720; rAuto] init)
    (Html5Hlsjs.mkBrowser [] true ["error"%string]).

(** The same with two quality levels. *)
Definition two_levels : Html5Hlsjs.t :=
  Html5Hlsjs.fresh
    (Html5Hlsjs.mkConfig None None)
    (Html5Hlsjs.mkHls
       (Hls.mkProps [Hls.mkLevel 0 720 1280 2000000; Hls.mkLevel 0 1080 1920 4000000]
                    1 true) []
       [Html5Hlsjs.empty_closure])
    (Html5Hlsjs.mkTech None [])
    (add [r720; r1080; rAuto] init)
    (Html5Hlsjs.mkBrowser [] true ["error"%string]).

Definition r480 : Resolution := mkResolution 2 (Some 480) None None "480p" false.

Definition engine_720 : Hls.Level := Hls.mkLevel 0 720 1280 2000000.
Definition engine_1080 : Hls.Level := Hls.mkLevel 0 1080 1920 4000000.
Definition engine_480 : Hls.Level := Hls.mkLevel 0 480 854 1000000.

(** A session with three quality levels, of which the first is being
    loaded; the id of each entry of the registry is the index of its level
    in the engine, as [_notifyVideoQualities] numbers the entries. *)
Definition three_levels : Html5Hlsjs.t :=
  Html5Hlsjs.fresh
    (Html5Hlsjs.mkConfig None None)
    (Html5Hlsjs.mkHls
       (Hls.mkProps [engine_720; engine_1080; engine_480] 0 true) []
       [Html5Hlsjs.empty_closure])
    (Html5Hlsjs.mkTech None [])
    (add [r720; r1080; r480; rAuto] init)
    (Html5Hlsjs.mkBrowser [] true ["error"%string]).

(** A session with two quality levels of which none is being loaded yet:
    [loadLevel] is -1. *)
Definition none_loading : Html5Hlsjs.t :=
  Html5Hlsjs.fresh
    (Html5Hlsjs.mkConfig None None)
    (Html5Hlsjs.mkHls (Hls.mkProps [engine_720; engine_1080] (-1) true) []
                      [Html5Hlsjs.empty_closure])
    (Html5Hlsjs.mkTech None [])
    (add [r720; r1080; rAuto] init)
    (Html5Hlsjs.mkBrowser [] true ["error"%string]).

Definition offline (s : Html5Hlsjs.t) : Html5Hlsjs.t :=
  Html5Hlsjs.set_window
    (Html5Hlsjs.mkBrowser (Html5Hlsjs.timeouts (Html5Hlsjs.window s)) false
       (Html5Hlsjs.videoElement_listeners (Html5Hlsjs.window s))) s.

Definition network_error : Html5Hlsjs.ErrorData :=
  Html5Hlsjs.mkErrorData Hls.ErrorTypes.NETWORK_ERROR false "fragLoadError".

Definition media_error : Html5Hlsjs.ErrorData :=
  Html5Hlsjs.mkErrorData Hls.ErrorTypes.MEDIA_ERROR true "bufferStalledError".

Definition incompatible_codecs : Html5Hlsjs.ErrorData :=
  Html5Hlsjs.mkErrorData Hls.ErrorTypes.MEDIA_ERROR true
    "manifestIncompatibleCodecsError".

Definition other_error : Html5Hlsjs.ErrorData :=
  Html5Hlsjs.mkErrorData "otherError" true "internalException".

Definition other_warning : Html5Hlsjs.ErrorData :=
  Html5Hlsjs.mkErrorData "otherError" false "internalException".

End Examples.

(** ** The rest of the source: hooks, source handler, options plugin and
    the remaining listeners of the provider *)

Module JSLib.

(** [Array.prototype.indexOf] on an array of function references, which
    are named by numbers: the first index that holds the value, [None]
    for -1. *)
Fixpoint indexOf (x : nat) (l : list nat) : option nat :=
  match l with
  | [] => None
  | y :: t => if Nat.eqb y x then Some O else option_map S (indexOf x t)
  end.

(** [array.splice(index, 1)]. *)
Fixpoint splice1 {A} (index : nat) (l : list A) : list A :=
  match l, index with
  | [], _ => []
  | _ :: t, O => t
  | y :: t, S i => y :: splice1 i t
  end.

(** The argument of [RegExp.prototype.test] as a string. *)
Definition ToString (x : option string) : string := default "undefined"%string x.

Definition lower_ascii (c : Ascii.ascii) : Ascii.ascii :=
  let n := Ascii.nat_of_ascii c in
  if (65 <=? n)%nat && (n <=? 90)%nat then Ascii.ascii_of_nat (n + 32) else c.

Fixpoint lower (s : string) : string :=
  match s with
  | EmptyString => EmptyString
  | String c s' => String (lower_ascii c) (lower s')
  end.

(** [p] occurs at the start of [s]. *)
Fixpoint starts_with (p s : string) : bool :=
  match p, s with
  | EmptyString, _ => true
  | String _ _, EmptyString => false
  | String a p', String b s' => Ascii.eqb a b && starts_with p' s'
  end.

(** [p] occurs at the end of [s]. *)
Fixpoint ends_with (p s : string) : bool :=
  String.eqb s p
  || match s with
     | EmptyString => false
     | String _ s' => ends_with p s'
     end.

(** [p] occurs somewhere in [s]. *)
Fixpoint contains (p s : string) : bool :=
  starts_with p s
  || match s with
     | EmptyString => false
     | String _ s' => contains p s'
     end.

End JSLib.

(** *** The static hooks of [Html5Hlsjs] *)

Module Hooks.

(** A callback is a function reference, named by a number. *)
Abbreviation callback := nat.

(** What a call returns, or the [TypeError] that it throws. *)
Inductive completion (A : Type) :=
| Returned (a : A)
| TypeError.

Arguments Returned {A} a.
Arguments TypeError {A}.

(** [Html5Hlsjs.hooks] is a plain object: under a name of which it has no
    own property it yields what [Object.prototype] defines under that
    name.  These are the names that ECMAScript gives [Object.prototype],
    each with the [length] of its value, which is a function; [__proto__]
    yields the prototype object itself, which has no [length]. *)
Definition Object_prototype : list (string * nat) :=
  [("constructor", 1); ("hasOwnProperty", 1); ("isPrototypeOf", 1);
   ("propertyIsEnumerable", 1); ("toLocaleString", 0); ("toString", 0);
   ("valueOf", 0); ("__proto__", 0); ("__defineGetter__", 2);
   ("__defineSetter__", 2); ("__lookupGetter__", 1);
   ("__lookupSetter__", 1)]%nat.

Fixpoint assoc (name : string) (l : list (string * nat)) : option nat :=
  match l with
  | [] => None
  | (k, v) :: rest => if String.eqb k name then Some v else assoc name rest
  end.

(** The [length] of what the hooks object inherits under [name], if it
    inherits anything. *)
Definition inherited (name : string) : option nat := assoc name Object_prototype.

(** What [hooks[type]] yields: an array of callbacks, or an inherited value,
    which is not an array and of which the code reads [length] only. *)
Inductive property :=
| callbacks (l : list callback)
| not_an_array (length : nat).

(** [hooks[type]], where the map holds the own properties of the object,
    each an array of callbacks in the order of registration; [None] is
    [undefined]. *)
Definition get (type : string) (hooks : gmap string (list callback))
    : option property :=
  match hooks !! type with
  | Some l => Some (callbacks l)
  | None => option_map not_an_array (inherited type)
  end.

(** [addHook]: the array of the type, created empty when [hooks[type]] is
    undefined, gets the callback pushed.  An inherited value is not
    undefined: it is stored as it is, which changes nothing of what
    [hooks[type]] yields, and the call of its [push] throws. *)
Definition addHook (type : string) (cb : callback)
    (hooks : gmap string (list callback))
    : completion (gmap string (list callback)) :=
  match get type hooks with
  | None => Returned (<[type := [cb]]> hooks)
  | Some (callbacks l) => Returned (<[type := l ++ [cb]]> hooks)
  | Some (not_an_array _) => TypeError
  end.

(** [removeHook]: the value returned and the hooks left; the call of
    [indexOf] of an inherited value throws. *)
Definition removeHook (type : string) (cb : callback)
    (hooks : gmap string (list callback))
    : completion (bool * gmap string (list callback)) :=
  match get type hooks with
  | None => Returned (false, hooks)
  | Some (callbacks l) =>
      match JSLib.indexOf cb l with
      | None => Returned (false, hooks)
      | Some index => Returned (true, <[type := JSLib.splice1 index l]> hooks)
      end
  | Some (not_an_array _) => TypeError
  end.

Definition removeAllHooks (hooks : gmap string (list callback))
    : gmap string (list callback) := ∅.

(** [_executeHooksFor]: the callbacks called, in the order of the calls;
    each is called with the player and the engine instance, and is taken
    to leave the hooks alone.  Over an inherited value the loop runs up to
    its [length] and calls its element 0, which is undefined. *)
Definition _executeHooksFor (type : string)
    (hooks : gmap string (list callback)) : completion (list callback) :=
  match get type hooks with
  | None => Returned []
  | Some (callbacks l) => Returned l
  | Some (not_an_array O) => Returned []
  | Some (not_an_array (S _)) => TypeError
  end.

(** [addHook] for each of the callbacks in turn, up to the first call that
    throws. *)
Fixpoint addHooks (type : string) (cbs : list callback)
    (hooks : gmap string (list callback))
    : completion (gmap string (list callback)) :=
  match cbs with
  | [] => Returned hooks
  | cb :: rest =>
      match addHook type cb hooks with
      | Returned hooks' => addHooks type rest hooks'
      | TypeError => TypeError
      end
  end.

End Hooks.

(** *** [registerSourceHandler] *)

Module SourceHandler.

Record Source := mkSource {
  src : option string;
  type : option string
}.

(** [/^application\/x-mpegURL|application\/vnd\.apple\.mpegurl$/i]: the
    first alternative is anchored at the start, the second at the end. *)
Definition hlsTypeRE (s : string) : bool :=
  JSLib.starts_with "application/x-mpegurl" (JSLib.lower s)
  || JSLib.ends_with "application/vnd.apple.mpegurl" (JSLib.lower s).

(** [/\.m3u8/i]. *)
Definition hlsExtRE (s : string) : bool :=
  JSLib.contains ".m3u8" (JSLib.lower s).

Definition canHandleSource (source : Source) : string :=
  if hlsTypeRE (JSLib.ToString (type source)) then "probably"
  else if hlsExtRE (JSLib.ToString (src source)) then "maybe"
  else "".

(** The module variable [alreadyRegistered], the source handlers that the
    [Html5] tech was given (by the index passed with them) and whether
    [vjs.Html5Hlsjs] was set. *)
Record registration := mkRegistration {
  alreadyRegistered : bool;
  registered : list Z;
  exported : bool
}.

(** The state when the module is loaded. *)
Definition loaded : registration := mkRegistration false [] false.

(** [registerSourceHandler(vjs)], given what [Hls.isSupported()] returns
    and whether [vjs.getTech("Html5")] finds a tech. *)
Definition registerSourceHandler (isSupported html5 : bool) (r : registration)
    : registration :=
  if negb isSupported then r
  else if negb html5 then r
  else if alreadyRegistered r then r
  else {| alreadyRegistered := true;
          registered := registered r ++ [0];
          exported := true |}.

End SourceHandler.

(** *** The provider: what the claims leave of [Html5Hlsjs] *)

Module Provider.

Import Html5Hlsjs.

(** The keys of an [hlsjsConfig] object that the provider reads. *)
Record Config := mkConfig {
  autoStartLoad : option bool;
  liveSyncDuration : option Z;
  liveSyncDurationCount : option Z
}.

Definition empty_config : Config := mkConfig None None None.

Definition core_config (c : Config) : config :=
  {| Html5Hlsjs.liveSyncDuration := liveSyncDuration c;
     Html5Hlsjs.liveSyncDurationCount := liveSyncDurationCount c |}.

(** [player.srOptions_]. *)
Record srOptions := mkSrOptions {
  sr_hlsjsConfig : option Config;
  sr_levelLabelHandler : option (Hls.Level -> string)
}.

(** What the constructor of the provider reads of the player, the tech, the
    video element and the source. *)
Record site := mkSite {
  srOptions_ : option srOptions;
  techOptions_hlsjsConfig : option Config;
  preload : string;
  autoplay : bool;
  source_src : string
}.

(** [srOptions_?.hlsjsConfig || techOptions.hlsjsConfig]. *)
Definition hlsjsConfigRef (x : site) : option Config :=
  match srOptions_ x ≫= sr_hlsjsConfig with
  | Some c => Some c
  | None => techOptions_hlsjsConfig x
  end.

(** The configuration that [_initHlsjs] hands to the engine: a copy of the
    configuration of the player or else of the tech, or an empty object,
    with [autoStartLoad] set to false when [preload] of the element is
    empty or [auto], the element does not play by itself and the key is
    undefined. *)
Definition initial_config (x : site) : Config :=
  let c := default empty_config (hlsjsConfigRef x) in
  if (String.eqb (preload x) "" || String.eqb (preload x) "auto")
     && negb (autoplay x)
     && match autoStartLoad c with None => true | Some _ => false end
  then {| autoStartLoad := Some false;
          liveSyncDuration := liveSyncDuration c;
          liveSyncDurationCount := liveSyncDurationCount c |}
  else c.

(** The listeners and the source that [_initHlsjs] gives the engine. *)
Inductive hls_event :=
| Events_ERROR
| Events_MANIFEST_PARSED
| Events_LEVEL_LOADED
| Events_FRAG_LOADED
| Events_LEVEL_SWITCHING.

Inductive wire :=
| hls_on (e : hls_event)
| hls_once (e : hls_event)
| attachMedia
| loadSource (url : string).

(** A new provider: its state, the configuration of its engine, the hooks
    called and the wiring of the engine. *)
Record instance := mkInstance {
  state : Html5Hlsjs.t;
  engine_config : Config;
  hooks_called : list Hooks.callback;
  wiring : list wire
}.

(** [new Html5Hlsjs(vjs, source, tech)]: the constructor registers the
    [error] listener and calls [initialize], that is [_initHlsjs].  The
    hooks of [beforeinitialize] are run: the hooks object inherits nothing
    under that name, so that call returns.
    [engine] are the properties of the engine instance that [new Hls]
    returns, [pending] and [onLine] the state of the browser. *)
Definition construct (hooks : gmap string (list Hooks.callback)) (x : site)
    (engine : Hls.props) (tech : tech_object) (p : PodResolutionsPlugin.t)
    (pending : list timeout) (onLine : bool) : instance :=
  let c := initial_config x in
  let listeners :=
    ["error"%string]
    ++ match autoStartLoad c with
       | Some false => ["play"%string]
       | _ => []
       end in
  {| state := fresh (core_config c) (mkHls engine [] [empty_closure]) tech p
                (mkBrowser pending onLine listeners);
     engine_config := c;
     hooks_called :=
       match Hooks._executeHooksFor "beforeinitialize" hooks with
       | Hooks.Returned l => l
       | Hooks.TypeError => []
       end;
     wiring := [hls_on Events_ERROR; hls_on Events_MANIFEST_PARSED;
                hls_on Events_LEVEL_LOADED; hls_once Events_FRAG_LOADED;
                hls_on Events_LEVEL_SWITCHING; attachMedia;
                loadSource (source_src x)] |}.

(** The [error] property of the video element. *)
Record MediaError := mkMediaError {
  me_code : Z;
  me_message : string
}.

Definition MEDIA_ERR_DECODE : Z := 3.

(** A number of the video element that may be [NaN] ([None]). *)
Definition number := option duration.

(** [duration()]. *)
Definition duration (videoElement_duration : number) (s : t) : Html5Hlsjs.duration :=
  match _duration s with
  | Some Infinity => Infinity
  | _ =>
      match videoElement_duration with
      | Some d => d
      | None =>
          match _duration s with
          | Some (Seconds z) => if z =? 0 then Seconds 0 else Seconds z
          | _ => Seconds 0
          end
      end
  end.

(** The result of a listener that may throw: the state it leaves. *)
Inductive outcome :=
| Returned (s : t)
| TypeError (s : t).

Definition state_of (o : outcome) : t :=
  match o with
  | Returned s => s
  | TypeError s => s
  end.

Section Listeners.

Variable engine : Hls.reaction.

(** [this.player.srOptions_], [this.player.localize] and the text of
    [bitrate / 1000]. *)
Variable player_srOptions_ : option srOptions.
Variable localize : string -> string.
Variable kbps : Z -> string.

(** [buildLevelLabel]; reading [levelLabelHandler] of an undefined
    [srOptions_] throws ([None]). *)
Definition buildLevelLabel (level : Hls.Level) : option string :=
  match player_srOptions_ with
  | None => None
  | Some sr =>
      Some
        match sr_levelLabelHandler sr with
        | Some handler => handler level
        | None =>
            if negb (Hls.height level =? 0)
            then pretty (Hls.height level) +:+ "p"
            else if negb (Hls.width level =? 0)
            then pretty ((Hls.width level * 9 + 8) / 16) +:+ "p"
            else if negb (Hls.bitrate level =? 0)
            then kbps (Hls.bitrate level) +:+ "kbps"
            else "0"
        end
  end.

(** The [forEach] of [_notifyVideoQualities] from index [index] on; [None]
    when a label throws. *)
Fixpoint level_resolutions (manualLevel : Z) (index : Z) (levels : list Hls.Level)
    : option (list PodResolutionsPlugin.Resolution) :=
  match levels with
  | [] => Some []
  | level :: rest =>
      match buildLevelLabel level with
      | None => None
      | Some l =>
          option_map
            (cons {| PodResolutionsPlugin.id := index;
                     PodResolutionsPlugin.height := Some (Hls.height level);
                     PodResolutionsPlugin.width := Some (Hls.width level);
                     PodResolutionsPlugin.bitrate := Some (Hls.bitrate level);
                     PodResolutionsPlugin.label := l;
                     PodResolutionsPlugin.selected := Hls.id level =? manualLevel |})
            (level_resolutions manualLevel (index + 1) rest)
      end
  end.

(** The entry pushed last by [_notifyVideoQualities]. *)
Definition auto_resolution : PodResolutionsPlugin.Resolution :=
  {| PodResolutionsPlugin.id := -1;
     PodResolutionsPlugin.height := None;
     PodResolutionsPlugin.width := None;
     PodResolutionsPlugin.bitrate := None;
     PodResolutionsPlugin.label := localize "Auto";
     PodResolutionsPlugin.selected := true |}.

(** [_notifyVideoQualities], given [this.metadata] (its levels) and
    [this.hls.manualLevel]. *)
Definition _notifyVideoQualities (metadata : option (list Hls.Level))
    (manualLevel : Z) (s : t) : outcome :=
  match metadata with
  | None => Returned s
  | Some levels =>
      match level_resolutions manualLevel 0 levels with
      | None => TypeError s
      | Some resolutions =>
          Returned
            (set_podResolutions
               (PodResolutionsPlugin.add (resolutions ++ [auto_resolution])
                  (podResolutions s)) s)
      end
  end.

(** [_onMetaData]: [this.metadata], which is read nowhere else, is set to
    the data of the event and the qualities are notified. *)
Definition _onMetaData (levels : list Hls.Level) (manualLevel : Z) (s : t)
    : outcome :=
  _notifyVideoQualities (Some levels) manualLevel s.

(** [_startLoad], the [play] handler. *)
Definition _startLoad (s : t) : t :=
  let s := hls_call engine (Hls.startLoad (Some (-1))) s in
  removeEventListener "play" s.

(** [this.handlers.error], the [error] handler of the video element, given
    the [error] property of the element.  The object handed to
    [_handleMediaError] is the element's error object, of which the spread
    in [_handleUnrecovarableError] copies no own property. *)
Definition handlers_error (mediaError : option MediaError) (s : t) : t :=
  match mediaError with
  | None => s
  | Some e =>
      if me_code e =? MEDIA_ERR_DECODE
      then _handleMediaError engine {| message := me_message e; code := None |} s
      else s
  end.

(** What reaches the provider: the events of the engine, the events of the
    video element and the passing of time. *)
Inductive event :=
| ERROR (data : ErrorData)
| MANIFEST_PARSED (levels : list Hls.Level) (manualLevel : Z)
| LEVEL_LOADED (details : LevelDetails)
| LEVEL_SWITCHING (level : Z)
| FRAG_LOADED
| video_play
| video_error (mediaError : option MediaError)
| time_passes (ms : Z).

Definition listens (e : string) (s : t) : bool :=
  existsb (String.eqb e) (videoElement_listeners (window s)).

Definition handle (s : t) (e : event) : t :=
  match e with
  | ERROR data => _onError engine data s
  | MANIFEST_PARSED levels manualLevel =>
      state_of (_onMetaData levels manualLevel s)
  | LEVEL_LOADED d => on_LEVEL_LOADED d s
  | LEVEL_SWITCHING level => on_LEVEL_SWITCHING level s
  | FRAG_LOADED => emit_FRAG_LOADED engine s
  | video_play => if listens "play" s then _startLoad s else s
  | video_error e => if listens "error" s then handlers_error e s else s
  | time_passes ms => elapse engine ms s
  end.

Definition handle_all (es : list event) (s : t) : t := List.fold_left handle es s.

End Listeners.

End Provider.

(** *** The options plugin ([HLSJSConfigHandler]) *)

Module HLSJSConfigHandler.

Import Provider.

(** The [options] of the plugin. *)
Record options := mkOptions {
  hlsjsConfig : option Config;
  levelLabelHandler : option (Hls.Level -> string)
}.

(** The player and its tech as the plugin sees them:
    [player.srOptions_], [tech.hlsProvider], the providers that were
    disposed of and dropped, and the registration of the source
    handler. *)
Record host := mkHost {
  player_srOptions_ : option srOptions;
  tech_hlsProvider : option Html5Hlsjs.t;
  dropped : list Html5Hlsjs.t;
  registration : SourceHandler.registration
}.

(** The constructor of the plugin. *)
Definition constructor (isSupported html5 : bool) (o : option options)
    (h : host) : host :=
  match o with
  | None => h
  | Some o =>
      let sr := default (mkSrOptions None None) (player_srOptions_ h) in
      let sr :=
        match sr_hlsjsConfig sr with
        | Some _ => sr
        | None => mkSrOptions (hlsjsConfig o) (sr_levelLabelHandler sr)
        end in
      let sr :=
        match levelLabelHandler o, sr_levelLabelHandler sr with
        | Some f, None => mkSrOptions (sr_hlsjsConfig sr) (Some f)
        | _, _ => sr
        end in
      {| player_srOptions_ := Some sr;
         tech_hlsProvider := tech_hlsProvider h;
         dropped := dropped h;
         registration :=
           SourceHandler.registerSourceHandler isSupported html5 (registration h) |}
  end.

Section Dispose.

Variable engine : Hls.reaction.

(** [dispose] of the plugin. *)
Definition dispose (h : host) : host :=
  {| player_srOptions_ := None;
     tech_hlsProvider := None;
     dropped :=
       match tech_hlsProvider h with
       | Some p => dropped h ++ [Html5Hlsjs.dispose engine p]
       | None => dropped h
       end;
     registration := registration h |}.

End Dispose.

End HLSJSConfigHandler.

(** *** Examples for the rest of the source *)

Module MoreExamples.

Import Provider.

Definition level_720 : Hls.Level := Hls.mkLevel 0 720 1280 2000000.
Definition level_1080 : Hls.Level := Hls.mkLevel 0 1080 1920 4000000.
Definition level_audio : Hls.Level := Hls.mkLevel 0 0 0 96000.

Definition plain_options : srOptions := mkSrOptions None None.

Definition english (s : string) : string := s.

Definition thousandths (bitrate : Z) : string := pretty (bitrate / 1000).

(** An element that does not preload and a player without configuration. *)
Definition deferred_site : site :=
  mkSite (Some plain_options) None "auto" false "https://example.org/live.m3u8".

(** The same with [autoStartLoad] set in the configuration of the tech. *)
Definition eager_site : site :=
  mkSite (Some plain_options) (Some (mkConfig (Some true) None None)) "auto" false
         "https://example.org/live.m3u8".

Definition a_provider (x : site) : instance :=
  construct ∅ x (Hls.mkProps [level_720; level_1080] 0 true)
    (Html5Hlsjs.mkTech None []) PodResolutionsPlugin.init [] true.

Definition decode_error : MediaError := mkMediaError 3 "decode".

End MoreExamples.

(** ** Properties of the resolution registry *)

Section Registry.

Import PodResolutionsPlugin Spec.

Lemma sort_insert_Forall {A} (P : A -> Prop) cmp x l :
  P x -> Forall P l -> Forall P (JS.sort_insert cmp x l).
Proof.
  intros Hx Hl. induction Hl as [|y t Hy Ht IH]; simpl.
  - auto.
  - destruct (cmp x y <=? 0); auto.
Qed.

Lemma sort_Forall {A} (P : A -> Prop) cmp l :
  Forall P l -> Forall P (JS.sort cmp l).
Proof.
  induction 1 as [|x t Hx Ht IH]; simpl.
  - constructor.
  - now apply sort_insert_Forall.
Qed.

Lemma in_order_trans a b c :
  in_order a b = true -> in_order b c = true -> in_order a c = true.
Proof.
  unfold in_order.
  destruct (is_auto a), (is_auto b), (is_auto c); try congruence.
  destruct (height a), (height b), (height c); try congruence.
  rewrite !Z.leb_le. lia.
Qed.

Lemma compare_le_in_order a b :
  has_height a = true -> has_height b = true ->
  compare a b <= 0 -> in_order a b = true.
Proof.
  unfold has_height, compare, in_order, is_auto.
  destruct (id a =? -1), (id b =? -1); simpl; try lia; try reflexivity.
  destruct (height a) as [x|], (height b) as [y|]; try discriminate.
  intros _ _. simpl.
  destruct (Z.ltb_spec y x), (Z.eqb_spec x y), (Z.leb_spec y x); lia.
Qed.

Lemma compare_gt_in_order a b :
  has_height a = true -> has_height b = true ->
  0 < compare a b -> in_order b a = true.
Proof.
  unfold has_height, compare, in_order, is_auto.
  destruct (id a =? -1), (id b =? -1); simpl; try lia; try reflexivity.
  destruct (height a) as [x|], (height b) as [y|]; try discriminate.
  intros _ _. simpl.
  destruct (Z.ltb_spec y x), (Z.eqb_spec x y), (Z.leb_spec x y); lia.
Qed.

Lemma sort_insert_sorted x l :
  has_height x = true -> Forall (fun r => has_height r = true) l ->
  sorted_desc l -> sorted_desc (JS.sort_insert compare x l).
Proof.
  intros Hx Hl Hs. unfold sorted_desc in *.
  induction Hs as [|y t Hs IH Hy]; simpl.
  - repeat constructor.
  - inversion Hl as [|? ? Hhy Hht]; subst.
    destruct (Z.leb_spec (compare x y) 0) as [Hle|Hgt].
    + pose proof (compare_le_in_order x y Hx Hhy Hle) as Hxy.
      constructor.
      * now constructor.
      * constructor; [exact Hxy|].
        eapply Forall_impl; [exact Hy|].
        intros z Hz. now apply in_order_trans with y.
    + constructor.
      * now apply IH.
      * apply sort_insert_Forall; [|exact Hy].
        now apply compare_gt_in_order.
Qed.

Lemma sort_sorted l :
  Forall (fun r => has_height r = true) l -> sorted_desc (JS.sort compare l).
Proof.
  induction 1 as [|x t Hx Ht IH]; simpl.
  - constructor.
  - apply sort_insert_sorted; auto. now apply sort_Forall.
Qed.

Lemma filter_Forall {A} (P : A -> Prop) f (l : list A) :
  Forall P l -> Forall P (List.filter f l).
Proof.
  induction 1 as [|x t Hx Ht IH]; simpl; [constructor|].
  destruct (f x); auto.
Qed.

Lemma filter_sorted f l : sorted_desc l -> sorted_desc (List.filter f l).
Proof.
  unfold sorted_desc. induction 1 as [|x t Hs IH Hx]; simpl; [constructor|].
  destruct (f x); [|exact IH].
  constructor; [exact IH|]. now apply filter_Forall.
Qed.

Lemma select_loop_fst o rs p :
  fst (select_loop o rs p) = List.map (marked (opt_id o)) rs.
Proof.
  revert p. induction rs as [|r rest IH]; intros p; simpl; [reflexivity|].
  match goal with |- context [select_loop o rest ?q] =>
    specialize (IH q); destruct (select_loop o rest q) end.
  simpl in *. now rewrite IH.
Qed.

Lemma select_resolutions o p :
  unchanged o p = false ->
  resolutions (select o p) = List.map (marked (opt_id o)) (resolutions p).
Proof.
  intros H. unfold select. rewrite H.
  pose proof (select_loop_fst o
    (resolutions (set_autoResolutionChosenId (opt_autoResolutionChosenId o) p))
    (set_autoResolutionChosenId (opt_autoResolutionChosenId o) p)) as E.
  destruct (select_loop _ _ _) as [rs p2]. simpl in *. exact E.
Qed.

Lemma marked_Forall_height k l :
  Forall (fun r => has_height r = true) l ->
  Forall (fun r => has_height r = true) (List.map (marked k) l).
Proof.
  induction 1; simpl; constructor; auto.
Qed.

Lemma marked_sorted k l : sorted_desc l -> sorted_desc (List.map (marked k) l).
Proof.
  unfold sorted_desc. induction 1 as [|x t Hs IH Hx]; simpl; constructor; auto.
  clear -Hx. induction Hx; simpl; constructor; auto.
Qed.

Lemma step_ordered p c :
  levels_have_height c -> ordered p -> ordered (step p c).
Proof.
  intros Hc [Hh Hs]. destruct c as [rs|k|o]; simpl in *.
  - assert (Forall (fun r => has_height r = true) (resolutions p ++ rs)) as Hall
      by (apply Forall_app; split; assumption).
    split; simpl.
    + now apply sort_Forall.
    + now apply sort_sorted.
  - split; simpl.
    + now apply filter_Forall.
    + now apply filter_sorted.
  - destruct (unchanged o p) eqn:E.
    + unfold select. rewrite E. now split.
    + unfold ordered. rewrite (select_resolutions o p E).
      split; [now apply marked_Forall_height | now apply marked_sorted].
Qed.

Lemma run_ordered cs p :
  Forall levels_have_height cs -> ordered p -> ordered (run cs p).
Proof.
  intros Hcs. revert p. induction Hcs as [|c cs Hc Hcs IH]; intros p Hp; simpl.
  - exact Hp.
  - apply IH. now apply step_ordered.
Qed.

(** C1.  After every sequence of [add] and [remove] calls (and [select]
    calls, which do not move entries) on a new registry, the resolutions
    are in descending order of height with the automatic entries last,
    provided that every entry added, the automatic one apart, has a
    numeric height.  Adding the 720p entry (id 0) and the 1080p entry
    (id 1) and then the automatic entry yields the ids 1, 0, -1. *)
Theorem registry_sorted :
  (forall cs, Forall levels_have_height cs ->
              sorted_desc (resolutions (run cs init)))
  /\ List.map id
       (resolutions (run [Add [Examples.r720; Examples.r1080];
                          Add [Examples.rAuto]] init))
     = [1; 0; -1].
Proof.
  split.
  - intros cs Hcs. apply (run_ordered cs init Hcs).
    split; constructor.
  - reflexivity.
Qed.

Lemma registry_sorted_witness :
  sorted_desc
    (resolutions
       (run [Add [Examples.r720; Examples.rAuto]; Add [Examples.r1080];
             Remove 0; Add [Examples.r480_selected]] init)).
Proof.
  apply (proj1 registry_sorted).
  repeat constructor.
Defined.

(** C6.  A [select] whose id is the id of the current selection and whose
    automatic-mode reference is the stored one ([null] and [undefined]
    being different references) returns at once: the registry is left as
    it was, so no event is triggered, no [selected] flag changes and no
    [selectCallback] is called. *)
Theorem select_unchanged_returns (o : options) (p : t) :
  currentSelection p = Some (opt_id o) ->
  autoResolutionChosenId p = opt_autoResolutionChosenId o ->
  select o p = p
  /\ triggered (select o p) = triggered p
  /\ resolutions (select o p) = resolutions p
  /\ called (select o p) = called p.
Proof.
  intros Hc Ha.
  assert (select o p = p) as E.
  { unfold select, unchanged. rewrite Hc, Ha. simpl. rewrite Z.eqb_refl. simpl.
    destruct (opt_autoResolutionChosenId o); simpl; try reflexivity.
    now rewrite Z.eqb_refl. }
  rewrite E. auto.
Qed.

Lemma select_unchanged_returns_witness :
  let p := run [Add [Examples.r720; Examples.r1080];
                Select (mkOptions 0 (JS.number 0) true)] init in
  select (mkOptions 0 (JS.number 0) true) p = p.
Proof.
  apply (select_unchanged_returns (mkOptions 0 (JS.number 0) true));
    reflexivity.
Defined.

Lemma count_selected_absent k l :
  no_entry_with_id k l -> count_selected (List.map (marked k) l) = 0%nat.
Proof.
  unfold count_selected.
  induction 1 as [|r t Hr Ht IH]; simpl; [reflexivity|].
  destruct (Z.eqb_spec (id r) k); [contradiction|exact IH].
Qed.

Lemma distinct_ids_tail r t :
  distinct_ids (r :: t) -> no_entry_with_id (id r) t /\ distinct_ids t.
Proof.
  unfold distinct_ids, no_entry_with_id. simpl. intros H.
  inversion H as [|? ? Hnotin Hnd]; subst. split; [|exact Hnd].
  apply List.Forall_forall. intros x Hx Heq. apply Hnotin.
  apply list_elem_of_In. rewrite <- Heq. now apply List.in_map.
Qed.

Lemma count_selected_distinct k l :
  distinct_ids l -> (count_selected (List.map (marked k) l) <= 1)%nat.
Proof.
  induction l as [|r t IH]; intros Hd; [unfold count_selected; simpl; lia|].
  destruct (distinct_ids_tail r t Hd) as [Habs Hd'].
  unfold count_selected in *. simpl.
  destruct (Z.eqb_spec (id r) k) as [E|Hne]; [subst k|]; simpl.
  - pose proof (count_selected_absent (id r) t Habs) as H0.
    unfold count_selected in H0. rewrite H0. lia.
  - now apply IH.
Qed.

Lemma marked_absent k l :
  no_entry_with_id k l ->
  Forall (fun r => selected r = false) (List.map (marked k) l).
Proof.
  induction 1 as [|r t Hr Ht IH]; simpl; constructor; [|exact IH].
  simpl. now apply Z.eqb_neq.
Qed.

Lemma select_loop_absent o rs p :
  no_entry_with_id (opt_id o) rs -> snd (select_loop o rs p) = p.
Proof.
  induction 1 as [|r t Hr Ht IH]; simpl; [reflexivity|].
  destruct (Z.eqb_spec (id r) (opt_id o)); [contradiction|].
  destruct (select_loop o t p). simpl in *. exact IH.
Qed.

Lemma filter_absent k l :
  no_entry_with_id k l -> List.filter (fun r => negb (id r =? k)) l = l.
Proof.
  induction 1 as [|r t Hr Ht IH]; simpl; [reflexivity|].
  destruct (Z.eqb_spec (id r) k); [contradiction|]. simpl. now rewrite IH.
Qed.

(** C7, as the code has it.  On a registry whose entries have distinct
    ids, a [select] that gets past the guard on unchanged ids leaves at
    most one entry with [selected = true]. *)
Theorem select_at_most_one (o : options) (p : t) :
  distinct_ids (resolutions p) ->
  unchanged o p = false ->
  (count_selected (resolutions (select o p)) <= 1)%nat.
Proof.
  intros Hd Hu. rewrite (select_resolutions o p Hu).
  now apply count_selected_distinct.
Qed.

Lemma select_at_most_one_witness :
  (count_selected
     (resolutions
        (select (mkOptions 1%Z (JS.number 0%Z) false)
           (run [Add [Examples.r720; Examples.r1080]; Select Examples.select_0;
                 Add [Examples.r480_selected]] init))) <= 1)%nat.
Proof.
  apply select_at_most_one.
  - unfold distinct_ids. vm_compute.
    repeat (constructor; [rewrite list_elem_of_In; simpl; lia|]). constructor.
  - reflexivity.
Defined.

(** C7 fails as stated: after the 720p entry was selected and an entry
    flagged [selected] was added, selecting the 720p entry again returns at
    the guard and two entries, of distinct ids, stay selected. *)
Lemma select_leaves_two_selected :
  let p := run [Add [Examples.r720]; Select Examples.select_0;
                Add [Examples.r480_selected]] init in
  distinct_ids (resolutions p)
  /\ ~ (count_selected (resolutions (select Examples.select_0 p)) <= 1)%nat.
Proof.
  split.
  - unfold distinct_ids. vm_compute.
    repeat (constructor; [rewrite list_elem_of_In; simpl; lia|]). constructor.
  - vm_compute. lia.
Qed.

(** C8, as the code has it.  [remove] with an id that no entry has leaves
    the resolutions as they are.  [select] with an id that no entry has,
    when it gets past the guard on unchanged ids, sets the [selected] flag
    of every entry to false, keeps the current selection and calls no
    [selectCallback].  Both are total functions: no error is raised. *)
Theorem absent_id_is_no_error :
  (forall k p, no_entry_with_id k (resolutions p) ->
               resolutions (remove k p) = resolutions p)
  /\ (forall o p, no_entry_with_id (opt_id o) (resolutions p) ->
                  unchanged o p = false ->
                  Forall (fun r => selected r = false) (resolutions (select o p))
                  /\ currentSelection (select o p) = currentSelection p
                  /\ called (select o p) = called p).
Proof.
  split.
  - intros k p H. simpl. now apply filter_absent.
  - intros o p H Hu. split.
    + rewrite (select_resolutions o p Hu). now apply marked_absent.
    + unfold select. rewrite Hu.
      pose proof (select_loop_absent o
        (resolutions (set_autoResolutionChosenId (opt_autoResolutionChosenId o) p))
        (set_autoResolutionChosenId (opt_autoResolutionChosenId o) p) H) as E.
      destruct (select_loop _ _ _) as [rs p2]. simpl in E. subst p2.
      simpl. auto.
Qed.

Lemma absent_id_is_no_error_witness :
  let p := run [Add [Examples.r720; Examples.r480_selected]] init in
  resolutions (remove 7 p) = resolutions p
  /\ Forall (fun r => selected r = false)
            (resolutions (select (mkOptions 7 (JS.number 0) true) p)).
Proof.
  split.
  - apply (proj1 absent_id_is_no_error).
    vm_compute. repeat (constructor; [lia|]). constructor.
  - apply (proj2 absent_id_is_no_error).
    + vm_compute. repeat (constructor; [lia|]). constructor.
    + reflexivity.
Defined.

(** C8 fails as stated: the 720p entry is selected, an entry flagged
    [selected] is added and the 720p entry is removed; [select] with the id
    of the removed entry then returns at the guard, because the current
    selection still is the removed entry, and the added entry stays
    selected. *)
Lemma select_absent_id_keeps_flag :
  let p := run [Add [Examples.r720]; Select Examples.select_0;
                Add [Examples.r480_selected]; Remove 0] init in
  no_entry_with_id 0 (resolutions p)
  /\ ~ Forall (fun r => selected r = false)
              (resolutions (select Examples.select_0 p)).
Proof.
  split.
  - vm_compute. repeat (constructor; [lia|]). constructor.
  - vm_compute. intros H. inversion H as [|? ? Hsel _]. discriminate Hsel.
Qed.

End Registry.

(** ** Properties of the error-recovery policy *)

Section Policy.

Import Html5Hlsjs Spec.

Variable engine : Hls.reaction.

Local Abbreviation NETWORK_ERROR := Hls.ErrorTypes.NETWORK_ERROR.
Local Abbreviation MEDIA_ERROR := Hls.ErrorTypes.MEDIA_ERROR.
Local Abbreviation incompatibleCodecs := "manifestIncompatibleCodecsError"%string.

(** *** The counters *)

Lemma counted_lookup ty (c : gmap string Z) :
  counted ty c !! ty = Some (default 0 (c !! ty) + 1).
Proof. unfold counted. apply lookup_insert_eq. Qed.

Lemma counted_lookup_ne ty ty' (c : gmap string Z) :
  ty' <> ty -> counted ty c !! ty' = c !! ty'.
Proof. intros H. unfold counted. apply lookup_insert_ne. congruence. Qed.

(** The two branches of the increment in [_onError] amount to adding one
    to a counter that reads 0 when absent. *)
Lemma increment_counted data s :
  (if truthy (errorCounts s !! type data)
   then set_errorCounts
          (<[type data := default 0 (errorCounts s !! type data) + 1]>
             (errorCounts s)) s
   else set_errorCounts (<[type data := 1]> (errorCounts s)) s)
  = count_error data s.
Proof.
  unfold count_error, counted, truthy.
  destruct (errorCounts s !! type data) as [n|]; simpl; [|reflexivity].
  destruct (Z.eqb_spec n 0) as [->|]; reflexivity.
Qed.

Lemma onError_unfold data s :
  _onError engine data s =
  let s1 := count_error data s in
  if String.eqb (type data) NETWORK_ERROR then
    _handleNetworkError engine (with_code 2 (error_of data)) s1
  else if fatal data && String.eqb (type data) MEDIA_ERROR
          && negb (String.eqb (details data) incompatibleCodecs)
  then _handleMediaError engine (with_code 3 (error_of data)) s1
  else if fatal data then _handleUnrecovarableError engine (error_of data) s1
  else s1.
Proof. unfold _onError. now rewrite increment_counted. Qed.

(** *** What the handlers leave alone *)

Lemma unrecoverable_errorCounts error s :
  errorCounts (_handleUnrecovarableError engine error s) = errorCounts s.
Proof. unfold _handleUnrecovarableError. now destruct (1 <? _). Qed.


Lemma media_errorCounts error s :
  errorCounts (_handleMediaError engine error s) = errorCounts s.
Proof.
  unfold _handleMediaError.
  repeat match goal with |- context [if ?b then _ else _] => destruct b end;
    try reflexivity.
  apply unrecoverable_errorCounts.
Qed.

Lemma network_errorCounts error s :
  errorCounts (_handleNetworkError engine error s) = errorCounts s.
Proof.
  unfold _handleNetworkError.
  repeat match goal with |- context [if ?b then _ else _] => destruct b end;
    try reflexivity.
  apply unrecoverable_errorCounts.
Qed.

Lemma onError_errorCounts data s :
  errorCounts (_onError engine data s)
  = counted (type data) (errorCounts s).
Proof.
  rewrite onError_unfold. cbv zeta.
  repeat match goal with |- context [if ?b then _ else _] => destruct b end;
    rewrite ?network_errorCounts, ?media_errorCounts, ?unrecoverable_errorCounts;
    reflexivity.
Qed.

(** *** The dispatcher *)

(** C10.  An error event adds one to the counter of the type of the event
    (a counter that is absent counts as 0) and leaves the other counters
    alone.  A network error goes to the network policy, fatal or not; a
    fatal media error whose detail is not [manifestIncompatibleCodecsError]
    goes to the media ladder; every other fatal error goes to the
    unrecoverable path; an error that is neither fatal nor a network
    error only is counted. *)
Theorem onError_dispatch (data : ErrorData) (s : t) :
  (errorCounts (_onError engine data s) !! type data
     = Some (default 0 (errorCounts s !! type data) + 1)
   /\ forall ty, ty <> type data ->
        errorCounts (_onError engine data s) !! ty = errorCounts s !! ty)
  /\ (type data = NETWORK_ERROR ->
      _onError engine data s
      = _handleNetworkError engine (with_code 2 (error_of data))
          (count_error data s))
  /\ (type data = MEDIA_ERROR -> fatal data = true ->
      details data <> incompatibleCodecs ->
      _onError engine data s
      = _handleMediaError engine (with_code 3 (error_of data))
          (count_error data s))
  /\ (type data <> NETWORK_ERROR -> fatal data = true ->
      type data <> MEDIA_ERROR \/ details data = incompatibleCodecs ->
      _onError engine data s
      = _handleUnrecovarableError engine (error_of data) (count_error data s))
  /\ (type data <> NETWORK_ERROR -> fatal data = false ->
      _onError engine data s = count_error data s).
Proof.
  split; [split|].
  - rewrite onError_errorCounts. apply counted_lookup.
  - intros ty Hne. rewrite onError_errorCounts. now apply counted_lookup_ne.
  - rewrite onError_unfold. cbv zeta. repeat split.
    + intros ->. reflexivity.
    + intros Hty Hf Hd. rewrite Hty, Hf. simpl.
      apply String.eqb_neq in Hd. now rewrite Hd.
    + intros Hn Hf Hor. apply String.eqb_neq in Hn. rewrite Hn, Hf.
      destruct Hor as [Hm|Hd].
      * apply String.eqb_neq in Hm. now rewrite Hm.
      * rewrite Hd. simpl. now rewrite Bool.andb_false_r.
    + intros Hn Hf. apply String.eqb_neq in Hn. now rewrite Hn, Hf.
Qed.

(** *** The unrecoverable path *)

(** The steps of the unrecoverable path.  With more than one quality level
    left, it calls [removeLevel] with the number [hls.loadLevel], removes
    from the registry the entries whose id is that number and sets
    [currentLevel] to -1; the engine is not destroyed and the tech is left
    alone.  With at most one quality level left, it destroys the engine,
    makes the [error] accessor of the tech return the error with its
    message, and triggers [error] on the tech; the registry is left
    alone. *)
Lemma unrecoverable_path (error : Error) (s : t) :
  let s' := _handleUnrecovarableError engine error s in
  let loading := Hls.loadLevel (hls_props (hls s)) in
  (1 < quality_levels s ->
     hls_calls (hls s')
     = hls_calls (hls s) ++ [Hls.removeLevel loading; Hls.set_currentLevel (-1)]
     /\ PodResolutionsPlugin.resolutions (podResolutions s')
        = List.filter (fun r => negb (PodResolutionsPlugin.id r =? loading))
            (PodResolutionsPlugin.resolutions (podResolutions s))
     /\ tech s' = tech s)
  /\ (quality_levels s <= 1 ->
     hls_calls (hls s') = hls_calls (hls s) ++ [Hls.destroy]
     /\ tech_error (tech s')
        = Some {| message := message error; code := code error |}
     /\ tech_triggered (tech s') = tech_triggered (tech s) ++ ["error"%string]
     /\ podResolutions s' = podResolutions s).
Proof.
  unfold quality_levels. cbv zeta. unfold _handleUnrecovarableError. split.
  - intros H. apply Z.ltb_lt in H. rewrite H. simpl.
    rewrite <- app_assoc. auto.
  - intros H. apply Z.ltb_ge in H. rewrite H. simpl. auto.
Qed.

(** *** A device that is offline *)

(** C9.  While [navigator.onLine] is false, the network policy returns at
    once and leaves the handler as it is; an error event of the network
    type then only is counted: no retry is scheduled, no level is removed
    and the tech sees no error. *)
Theorem offline_network_error_is_ignored (data : ErrorData) (error : Error) (s : t) :
  navigator_onLine (window s) = false ->
  _handleNetworkError engine error s = s
  /\ (type data = NETWORK_ERROR ->
      _onError engine data s = count_error data s
      /\ window (_onError engine data s) = window s
      /\ hls (_onError engine data s) = hls s
      /\ podResolutions (_onError engine data s) = podResolutions s
      /\ tech (_onError engine data s) = tech s).
Proof.
  intros Hoff.
  assert (forall e s0, navigator_onLine (window s0) = false ->
                       _handleNetworkError engine e s0 = s0) as Hret.
  { intros e s0 H. unfold _handleNetworkError. now rewrite H. }
  split; [now apply Hret|].
  intros Hty. rewrite onError_unfold. cbv zeta. rewrite Hty. simpl.
  rewrite Hret by exact Hoff. auto.
Qed.

(** *** The media ladder *)

Lemma unrecoverable_terminal error s :
  quality_levels s <= 1 ->
  _handleUnrecovarableError engine error s
  = tech_trigger "error"
      (tech_set_error {| message := message error; code := code error |}
         (hls_call engine Hls.destroy s)).
Proof.
  unfold quality_levels, _handleUnrecovarableError. intros H.
  apply Z.ltb_ge in H. now rewrite H.
Qed.

Lemma onError_media data s :
  type data = MEDIA_ERROR -> fatal data = true ->
  details data <> incompatibleCodecs ->
  _onError engine data s
  = _handleMediaError engine (with_code 3 (error_of data)) (count_error data s).
Proof.
  intros Hty Hf Hd. rewrite onError_unfold. cbv zeta. rewrite Hty, Hf. simpl.
  apply String.eqb_neq in Hd. now rewrite Hd.
Qed.

Lemma count_error_occurrence data s :
  errorCounts (count_error data s) !! type data
  = Some (occurrence (type data) s).
Proof. apply counted_lookup. Qed.

Lemma occurrence_count_error data s :
  occurrence (type data) (count_error data s) = occurrence (type data) s + 1.
Proof. unfold occurrence at 1. now rewrite count_error_occurrence. Qed.

Lemma occurrence_hls_call ty m s :
  occurrence ty (hls_call engine m s) = occurrence ty s.
Proof. reflexivity. Qed.

Lemma media_first error s :
  errorCounts s !! MEDIA_ERROR = Some 1 ->
  _handleMediaError engine error s = hls_call engine Hls.recoverMediaError s.
Proof. intros H. unfold _handleMediaError. now rewrite H. Qed.

Lemma media_second error s :
  errorCounts s !! MEDIA_ERROR = Some 2 ->
  _handleMediaError engine error s
  = hls_call engine Hls.recoverMediaError (hls_call engine Hls.swapAudioCodec s).
Proof. intros H. unfold _handleMediaError. now rewrite H. Qed.

Lemma media_later error s n :
  errorCounts s !! MEDIA_ERROR = Some n -> 2 < n ->
  _handleMediaError engine error s = _handleUnrecovarableError engine error s.
Proof.
  intros H Hn. unfold _handleMediaError. rewrite H. simpl.
  destruct (Z.eqb_spec n 1); [lia|]. destruct (Z.eqb_spec n 2); [lia|].
  destruct (Z.ltb_spec 2 n); [reflexivity|lia].
Qed.

Lemma media_step data s :
  type data = MEDIA_ERROR -> fatal data = true ->
  details data <> incompatibleCodecs ->
  (occurrence MEDIA_ERROR s = 1 ->
   _onError engine data s
   = hls_call engine Hls.recoverMediaError (count_error data s))
  /\ (occurrence MEDIA_ERROR s = 2 ->
      _onError engine data s
      = hls_call engine Hls.recoverMediaError
          (hls_call engine Hls.swapAudioCodec (count_error data s)))
  /\ (2 < occurrence MEDIA_ERROR s ->
      _onError engine data s
      = _handleUnrecovarableError engine (with_code 3 (error_of data))
          (count_error data s)).
Proof.
  intros Hty Hf Hd. rewrite (onError_media data s Hty Hf Hd).
  pose proof (count_error_occurrence data s) as Hc. rewrite Hty in Hc.
  repeat split; intros Hn.
  - apply media_first. now rewrite Hc, Hn.
  - apply media_second. now rewrite Hc, Hn.
  - now apply media_later with (occurrence MEDIA_ERROR s).
Qed.

Lemma media_three data s :
  type data = MEDIA_ERROR -> fatal data = true ->
  details data <> incompatibleCodecs ->
  occurrence MEDIA_ERROR s = 1 ->
  let s1 := errors engine 1 data s in
  let s2 := errors engine 2 data s in
  let s3 := errors engine 3 data s in
  (hls_calls (hls s1) = hls_calls (hls s) ++ [Hls.recoverMediaError]
   /\ tech s1 = tech s)
  /\ (hls_calls (hls s2)
      = hls_calls (hls s)
        ++ [Hls.recoverMediaError; Hls.swapAudioCodec; Hls.recoverMediaError]
      /\ tech s2 = tech s)
  /\ (quality_levels s2 <= 1 ->
      hls_calls (hls s3)
      = hls_calls (hls s)
        ++ [Hls.recoverMediaError; Hls.swapAudioCodec; Hls.recoverMediaError;
            Hls.destroy]
      /\ tech_error (tech s3) = Some (with_code 3 (error_of data))
      /\ tech_triggered (tech s3) = tech_triggered (tech s) ++ ["error"%string]).
Proof.
  intros Hty Hf Hd H1. cbv zeta.
  assert (errors engine 1 data s
          = hls_call engine Hls.recoverMediaError (count_error data s)) as E1.
  { simpl. now apply (media_step data s Hty Hf Hd). }
  assert (occurrence MEDIA_ERROR (errors engine 1 data s) = 2) as H2.
  { rewrite E1, occurrence_hls_call, <- Hty, occurrence_count_error, Hty. lia. }
  assert (errors engine 2 data s
          = hls_call engine Hls.recoverMediaError
              (hls_call engine Hls.swapAudioCodec
                 (count_error data (errors engine 1 data s)))) as E2.
  { change (errors engine 2 data s)
      with (_onError engine data (errors engine 1 data s)).
    now apply (media_step data _ Hty Hf Hd). }
  assert (occurrence MEDIA_ERROR (errors engine 2 data s) = 3) as H3.
  { rewrite E2, !occurrence_hls_call, <- Hty, occurrence_count_error, Hty. lia. }
  assert (errors engine 3 data s
          = _handleUnrecovarableError engine (with_code 3 (error_of data))
              (count_error data (errors engine 2 data s))) as E3.
  { change (errors engine 3 data s)
      with (_onError engine data (errors engine 2 data s)).
    apply (media_step data _ Hty Hf Hd). lia. }
  split; [|split].
  - rewrite E1. simpl. auto.
  - rewrite E2, E1. simpl. rewrite <- !app_assoc. auto.
  - intros Hq. rewrite E3.
    rewrite unrecoverable_terminal by exact Hq.
    rewrite E2, E1. simpl. rewrite <- !app_assoc. auto.
Qed.

(** C2, as the code has it.  For a fatal media error whose detail is not
    [manifestIncompatibleCodecsError], the dispatcher acts on the media
    error count: at the first occurrence it calls [recoverMediaError], at
    the second [swapAudioCodec] and then [recoverMediaError], from the
    third on it takes the unrecoverable path.  Three such errors in a row,
    the first being the first media error of the session, leave the tech
    alone at the first and at the second and, with at most one quality
    level left, destroy the engine and trigger [error] on the tech at the
    third. *)
Theorem media_error_ladder (data : ErrorData) (s : t) :
  type data = MEDIA_ERROR -> fatal data = true ->
  details data <> incompatibleCodecs ->
  ((occurrence MEDIA_ERROR s = 1 ->
    _onError engine data s
    = hls_call engine Hls.recoverMediaError (count_error data s))
   /\ (occurrence MEDIA_ERROR s = 2 ->
       _onError engine data s
       = hls_call engine Hls.recoverMediaError
           (hls_call engine Hls.swapAudioCodec (count_error data s)))
   /\ (2 < occurrence MEDIA_ERROR s ->
       _onError engine data s
       = _handleUnrecovarableError engine (with_code 3 (error_of data))
           (count_error data s)))
  /\ (occurrence MEDIA_ERROR s = 1 ->
      let s1 := errors engine 1 data s in
      let s2 := errors engine 2 data s in
      let s3 := errors engine 3 data s in
      (hls_calls (hls s1) = hls_calls (hls s) ++ [Hls.recoverMediaError]
       /\ tech s1 = tech s)
      /\ (hls_calls (hls s2)
          = hls_calls (hls s)
            ++ [Hls.recoverMediaError; Hls.swapAudioCodec; Hls.recoverMediaError]
          /\ tech s2 = tech s)
      /\ (quality_levels s2 <= 1 ->
          hls_calls (hls s3)
          = hls_calls (hls s)
            ++ [Hls.recoverMediaError; Hls.swapAudioCodec;
                Hls.recoverMediaError; Hls.destroy]
          /\ tech_error (tech s3) = Some (with_code 3 (error_of data))
          /\ tech_triggered (tech s3)
             = tech_triggered (tech s) ++ ["error"%string])).
Proof.
  intros Hty Hf Hd. split.
  - now apply media_step.
  - now apply media_three.
Qed.

(** *** The network policy *)

Lemma onError_network data s :
  type data = NETWORK_ERROR ->
  _onError engine data s
  = _handleNetworkError engine (with_code 2 (error_of data)) (count_error data s).
Proof. intros Hty. rewrite onError_unfold. cbv zeta. now rewrite Hty. Qed.

Lemma network_retry data s :
  type data = NETWORK_ERROR -> navigator_onLine (window s) = true ->
  occurrence NETWORK_ERROR s <= maxNetworkErrorRecovery s ->
  _onError engine data s
  = hls_once_FRAG_LOADED reset_network_errorCount
      (setTimeout retry_startLoad 1000 (count_error data s)).
Proof.
  intros Hty Hon Hle. rewrite (onError_network data s Hty).
  pose proof (count_error_occurrence data s) as Hc. rewrite Hty in Hc.
  unfold _handleNetworkError. rewrite Hc.
  change (window (count_error data s)) with (window s). rewrite Hon.
  change (maxNetworkErrorRecovery (count_error data s))
    with (maxNetworkErrorRecovery s).
  unfold le_number. apply Z.leb_le in Hle. now rewrite Hle.
Qed.

Lemma network_exceeded data s :
  type data = NETWORK_ERROR -> navigator_onLine (window s) = true ->
  maxNetworkErrorRecovery s < occurrence NETWORK_ERROR s ->
  _onError engine data s
  = _handleUnrecovarableError engine (with_code 2 (error_of data))
      (count_error data s).
Proof.
  intros Hty Hon Hgt. rewrite (onError_network data s Hty).
  pose proof (count_error_occurrence data s) as Hc. rewrite Hty in Hc.
  unfold _handleNetworkError. rewrite Hc.
  change (window (count_error data s)) with (window s). rewrite Hon.
  change (maxNetworkErrorRecovery (count_error data s))
    with (maxNetworkErrorRecovery s).
  unfold le_number. apply Z.leb_gt in Hgt. now rewrite Hgt.
Qed.

Lemma run_closure_reset_stays c s :
  errorCounts s !! NETWORK_ERROR = Some 0 ->
  errorCounts (run_closure engine c s) !! NETWORK_ERROR = Some 0.
Proof.
  intros H. destruct c; simpl; [exact H| |exact H]. apply lookup_insert_eq.
Qed.

Lemma run_closures_reset cs s :
  In reset_network_errorCount cs \/ errorCounts s !! NETWORK_ERROR = Some 0 ->
  errorCounts (List.fold_left (fun s c => run_closure engine c s) cs s)
    !! NETWORK_ERROR = Some 0.
Proof.
  revert s. induction cs as [|c cs IH]; intros s H; simpl.
  - destruct H as [[]|H]. exact H.
  - apply IH. destruct H as [[->|Hin]|H0].
    + right. simpl. apply lookup_insert_eq.
    + now left.
    + right. now apply run_closure_reset_stays.
Qed.

Lemma emit_FRAG_LOADED_resets s :
  In reset_network_errorCount (once_FRAG_LOADED (hls s)) ->
  errorCounts (emit_FRAG_LOADED engine s) !! NETWORK_ERROR = Some 0.
Proof. intros H. unfold emit_FRAG_LOADED. apply run_closures_reset. now left. Qed.

(** The state after [n] network errors in a row, none of them beyond the
    ceiling. *)
Lemma network_retries data s n :
  type data = NETWORK_ERROR -> navigator_onLine (window s) = true ->
  occurrence NETWORK_ERROR s = 1 ->
  Z.of_nat n <= maxNetworkErrorRecovery s ->
  let s' := errors engine n data s in
  occurrence NETWORK_ERROR s' = Z.of_nat n + 1
  /\ maxNetworkErrorRecovery s' = maxNetworkErrorRecovery s
  /\ navigator_onLine (window s') = true
  /\ timeouts (window s') = timeouts (window s) ++ replicate n retry
  /\ hls_calls (hls s') = hls_calls (hls s)
  /\ hls_props (hls s') = hls_props (hls s)
  /\ podResolutions s' = podResolutions s
  /\ tech s' = tech s.
Proof.
  intros Hty Hon H1. cbv zeta. induction n as [|n IH]; intros Hn.
  - simpl. rewrite app_nil_r. auto 10.
  - destruct IH as (Ho & Hm & Hl & Ht & Hc & Hp & Hr & Hx); [lia|].
    change (errors engine (S n) data s)
      with (_onError engine data (errors engine n data s)).
    rewrite network_retry; [|exact Hty|exact Hl|lia].
    rewrite replicate_S_end, app_assoc, <- Ht. simpl.
    repeat split; try assumption.
    change (occurrence NETWORK_ERROR (count_error data (errors engine n data s))
            = Z.of_nat (S n) + 1).
    rewrite <- Hty, occurrence_count_error, Hty. lia.
Qed.


(** *** Disposal *)

Lemma network_retry_direct error s :
  navigator_onLine (window s) = true ->
  le_number (errorCounts s !! NETWORK_ERROR) (maxNetworkErrorRecovery s) = true ->
  _handleNetworkError engine error s
  = hls_once_FRAG_LOADED reset_network_errorCount
      (setTimeout retry_startLoad 1000 s).
Proof. intros Hon Hle. unfold _handleNetworkError. now rewrite Hon, Hle. Qed.

(** C5, as the code has it.  [dispose] takes the [play] and [error]
    handlers off the video element and destroys the engine, and leaves the
    pending timeouts alone: a retry that the network policy has scheduled
    still runs when its delay has passed, and calls [startLoad] on the
    engine after [destroy]. *)
Theorem dispose_keeps_pending_retry :
  (forall s,
     timeouts (window (dispose engine s)) = timeouts (window s)
     /\ hls_calls (hls (dispose engine s))
        = hls_calls (hls s) ++ [Hls.set_log_warn_noop; Hls.destroy]
     /\ ~ In "play"%string (videoElement_listeners (window (dispose engine s)))
     /\ ~ In "error"%string (videoElement_listeners (window (dispose engine s))))
  /\ (forall error s,
        navigator_onLine (window s) = true ->
        le_number (errorCounts s !! NETWORK_ERROR) (maxNetworkErrorRecovery s)
        = true ->
        timeouts (window s) = [] ->
        hls_calls
          (hls (elapse engine 1000
                  (dispose engine (_handleNetworkError engine error s))))
        = hls_calls (hls s)
          ++ [Hls.set_log_warn_noop; Hls.destroy; Hls.startLoad None]).
Proof.
  split.
  - intros s. split; [reflexivity|]. split.
    + simpl. now rewrite <- app_assoc.
    + simpl. split; intros H.
      * apply List.filter_In in H. destruct H as [H _].
        apply List.filter_In in H. destruct H as [_ H]. discriminate H.
      * apply List.filter_In in H. destruct H as [_ H]. discriminate H.
  - intros error s Hon Hle Ht.
    rewrite (network_retry_direct error s Hon Hle).
    unfold elapse. simpl. rewrite Ht. simpl.
    now rewrite <- !app_assoc.
Qed.

End Policy.

(** ** The policy on the example sessions *)

Section PolicyExamples.

Import Html5Hlsjs Spec Examples.

Local Abbreviation NETWORK_ERROR := Hls.ErrorTypes.NETWORK_ERROR.
Local Abbreviation MEDIA_ERROR := Hls.ErrorTypes.MEDIA_ERROR.

Lemma onError_dispatch_witness :
  _onError Hls.reference network_error one_level
  = _handleNetworkError Hls.reference (with_code 2 (error_of network_error))
      (count_error network_error one_level)
  /\ _onError Hls.reference media_error one_level
     = _handleMediaError Hls.reference (with_code 3 (error_of media_error))
         (count_error media_error one_level)
  /\ _onError Hls.reference incompatible_codecs one_level
     = _handleUnrecovarableError Hls.reference (error_of incompatible_codecs)
         (count_error incompatible_codecs one_level)
  /\ _onError Hls.reference other_warning one_level
     = count_error other_warning one_level.
Proof.
  split; [|split; [|split]].
  - apply (onError_dispatch Hls.reference network_error one_level).
    reflexivity.
  - apply (onError_dispatch Hls.reference media_error one_level).
    + reflexivity.
    + reflexivity.
    + apply String.eqb_neq. reflexivity.
  - apply (onError_dispatch Hls.reference incompatible_codecs one_level).
    + apply String.eqb_neq. reflexivity.
    + reflexivity.
    + right. reflexivity.
  - apply (onError_dispatch Hls.reference other_warning one_level).
    + apply String.eqb_neq. reflexivity.
    + reflexivity.
Defined.

Lemma unrecoverable_path_witness :
  (hls_calls (hls (_handleUnrecovarableError Hls.reference
                     (error_of other_error) two_levels))
   = [Hls.removeLevel 1; Hls.set_currentLevel (-1)]
   /\ tech (_handleUnrecovarableError Hls.reference
              (error_of other_error) two_levels)
      = tech two_levels)
  /\ tech_triggered (tech (_handleUnrecovarableError Hls.reference
                             (error_of other_error) one_level))
     = ["error"%string].
Proof.
  split.
  - destruct (proj1 (unrecoverable_path Hls.reference (error_of other_error)
                       two_levels)) as (Hc & _ & Ht).
    + vm_compute. reflexivity.
    + split; [exact Hc|exact Ht].
  - destruct (proj2 (unrecoverable_path Hls.reference (error_of other_error)
                       one_level)) as (_ & _ & Ht & _).
    + vm_compute. discriminate.
    + exact Ht.
Defined.

Lemma offline_network_error_is_ignored_witness :
  _handleNetworkError Hls.reference (with_code 2 (error_of network_error))
    (offline two_levels)
  = offline two_levels.
Proof.
  apply (offline_network_error_is_ignored Hls.reference network_error).
  reflexivity.
Defined.

Lemma media_error_ladder_witness :
  tech (errors Hls.reference 2 media_error one_level) = tech one_level
  /\ tech_triggered (tech (errors Hls.reference 3 media_error one_level))
     = ["error"%string].
Proof.
  assert (type media_error = MEDIA_ERROR) as Hty by reflexivity.
  assert (fatal media_error = true) as Hf by reflexivity.
  assert (details media_error <> "manifestIncompatibleCodecsError"%string) as Hd
    by (apply String.eqb_neq; reflexivity).
  destruct (proj2 (media_error_ladder Hls.reference media_error one_level
                     Hty Hf Hd)) as (_ & (_ & H2) & H3).
  - vm_compute. reflexivity.
  - split; [exact H2|].
    apply H3. vm_compute. discriminate.
Defined.

(** C2 fails as stated: the first media error of a session with one
    quality level, fatal and of detail [manifestIncompatibleCodecsError],
    does not call [recoverMediaError] but destroys the engine and triggers
    [error] on the tech. *)
Lemma incompatible_codecs_escalate_at_once :
  let s' := _onError Hls.reference incompatible_codecs one_level in
  type incompatible_codecs = MEDIA_ERROR
  /\ fatal incompatible_codecs = true
  /\ occurrence MEDIA_ERROR one_level = 1
  /\ quality_levels one_level = 1
  /\ hls_calls (hls s') = [Hls.destroy]
  /\ tech_triggered (tech s') = ["error"%string].
Proof. vm_compute. repeat split. Qed.



Lemma dispose_keeps_pending_retry_witness :
  hls_calls
    (hls (elapse Hls.reference 1000
            (dispose Hls.reference
               (_handleNetworkError Hls.reference
                  (with_code 2 (error_of network_error))
                  (count_error network_error one_level)))))
  = [Hls.set_log_warn_noop; Hls.destroy; Hls.startLoad None].
Proof.
  apply (proj2 (dispose_keeps_pending_retry Hls.reference)
           (with_code 2 (error_of network_error))
           (count_error network_error one_level)); reflexivity.
Defined.

(** C4.  The unrecoverable path removes from the registry the entries
    whose id is the number [hls.loadLevel].  That number is an index into
    the levels that the engine has now, while the ids of the registry are
    the indices that the levels had when the manifest was parsed.  With
    three levels of which the first is being loaded, a first fallback
    removes the 720p level from the engine and its entry from the
    registry.  The engine has renumbered its levels and index 0 is now the
    1080p level: a second fallback removes that level from the engine and
    nothing from the registry, which still lists 1080p, and no error
    reaches the tech.  With [loadLevel] at -1, as before any level is
    loaded, the fallback removes the Auto entry from the registry and no
    level from the engine. *)
Theorem fallback_removes_by_id :
  let error := error_of other_error in
  let s1 := _handleUnrecovarableError Hls.reference error three_levels in
  let s2 := _handleUnrecovarableError Hls.reference error s1 in
  let s3 := _handleUnrecovarableError Hls.reference error none_loading in
  (PodResolutionsPlugin.resolutions (podResolutions three_levels)
   = [r1080; r720; r480; rAuto]
   /\ Hls.levels (hls_props (hls s1)) = [engine_1080; engine_480]
   /\ PodResolutionsPlugin.resolutions (podResolutions s1)
      = [r1080; r480; rAuto])
  /\ (Hls.loadLevel (hls_props (hls s1)) = 0
      /\ quality_levels s1 = 2
      /\ hls_calls (hls s2)
         = [Hls.removeLevel 0; Hls.set_currentLevel (-1);
            Hls.removeLevel 0; Hls.set_currentLevel (-1)]
      /\ Hls.levels (hls_props (hls s2)) = [engine_480]
      /\ PodResolutionsPlugin.resolutions (podResolutions s2)
         = [r1080; r480; rAuto]
      /\ tech s2 = tech three_levels)
  /\ (quality_levels none_loading = 2
      /\ hls_calls (hls s3) = [Hls.removeLevel (-1); Hls.set_currentLevel (-1)]
      /\ Hls.levels (hls_props (hls s3)) = [engine_720; engine_1080]
      /\ PodResolutionsPlugin.resolutions (podResolutions s3) = [r1080; r720]).
Proof. vm_compute. repeat split. Qed.

(** C5 fails as stated: a network error schedules a retry, the handler is
    disposed of and the delay passes; the callback of the retry then runs
    and calls [startLoad] on the engine, after [destroy]. *)
Lemma retry_runs_after_dispose :
  let s := _onError Hls.reference network_error one_level in
  let disposed := dispose Hls.reference s in
  timeouts (window s) = [retry]
  /\ hls_calls (hls disposed) = [Hls.set_log_warn_noop; Hls.destroy]
  /\ hls_calls (hls (elapse Hls.reference 1000 disposed))
     = [Hls.set_log_warn_noop; Hls.destroy; Hls.startLoad None].
Proof. vm_compute. repeat split. Qed.

End PolicyExamples.

(** ** Further properties of the resolution registry *)

Section RegistryMore.

Import PodResolutionsPlugin Spec.

Lemma sort_insert_permutation {A} (cmp : A -> A -> Z) x l :
  Permutation (JS.sort_insert cmp x l) (x :: l).
Proof.
  induction l as [|y t IH]; simpl; [reflexivity|].
  destruct (cmp x y <=? 0); [reflexivity|].
  rewrite IH. apply perm_swap.
Qed.

Lemma sort_permutation {A} (cmp : A -> A -> Z) l :
  Permutation (JS.sort cmp l) l.
Proof.
  induction l as [|x t IH]; simpl; [reflexivity|].
  rewrite sort_insert_permutation. now constructor.
Qed.

(** X1.  [add] neither drops nor duplicates an entry: the resolutions
    after the call are the resolutions before it and the entries added, in
    some order. *)
Theorem add_permutation (rs : list Resolution) (p : t) :
  Permutation (resolutions (add rs p)) (resolutions p ++ rs)
  /\ length (resolutions (add rs p))
     = (length (resolutions p) + length rs)%nat.
Proof.
  assert (Permutation (resolutions (add rs p)) (resolutions p ++ rs)) as H
    by apply sort_permutation.
  split; [exact H|].
  rewrite (Permutation_length H). apply length_app.
Qed.

Lemma filter_none k (l : list Resolution) :
  no_entry_with_id k (List.filter (fun r => negb (id r =? k)) l).
Proof.
  unfold no_entry_with_id. induction l as [|r t IH]; simpl; [constructor|].
  destruct (Z.eqb_spec (id r) k); simpl; [exact IH|]. now constructor.
Qed.

(** X2.  [remove] leaves no entry of the given id, however many there
    were, and a second [remove] of the same id changes the list no
    further. *)
Theorem remove_every_entry_of_id (k : Z) (p : t) :
  no_entry_with_id k (resolutions (remove k p))
  /\ resolutions (remove k (remove k p)) = resolutions (remove k p).
Proof.
  split.
  - apply filter_none.
  - simpl. apply filter_absent. apply filter_none.
Qed.

Lemma strict_eq_true a b : JS.strict_eq a b = true -> a = b.
Proof.
  destruct a as [x|], b as [y|]; simpl; try discriminate; [|reflexivity].
  intros H. apply Z.eqb_eq in H. now subst.
Qed.

Lemma strict_eq_refl a : JS.strict_eq a a = true.
Proof. destruct a; simpl; [apply Z.eqb_refl|reflexivity]. Qed.

Lemma strict_eq_value_true a b : JS.strict_eq_value a b = true -> a = b.
Proof.
  destruct a as [| |x], b as [| |y]; simpl; try discriminate; try reflexivity.
  intros H. apply Z.eqb_eq in H. now subst.
Qed.

Lemma strict_eq_value_refl a : JS.strict_eq_value a a = true.
Proof. destruct a; simpl; try reflexivity. apply Z.eqb_refl. Qed.

(** What the loop of [select] leaves of the plugin. *)
Lemma select_loop_snd o rs p :
  let p' := snd (select_loop o rs p) in
  currentSelection p'
  = (if existsb (fun r => id r =? opt_id o) rs then Some (opt_id o)
     else currentSelection p)
  /\ called p'
     = called p
       ++ (if opt_fireCallback o
           then List.filter (fun i => i =? opt_id o) (List.map id rs) else [])
  /\ triggered p' = triggered p
  /\ autoResolutionChosenId p' = autoResolutionChosenId p.
Proof.
  cbv zeta. revert p. induction rs as [|r rest IH]; intros p; simpl.
  - destruct (opt_fireCallback o); rewrite ?app_nil_r; auto.
  - match goal with |- context [select_loop o rest ?q] =>
      specialize (IH q); destruct (select_loop o rest q) as [rest' p'']
    end.
    simpl in *. destruct IH as (Hc & Hk & Ht & Ha).
    rewrite Hc, Hk, Ht, Ha.
    destruct (Z.eqb_spec (id r) (opt_id o)) as [E|E]; simpl.
    + destruct (existsb _ rest); destruct (opt_fireCallback o); simpl;
        rewrite ?app_nil_r, <- ?app_assoc, ?E; auto.
    + auto.
Qed.

Lemma existsb_id k (l : list Resolution) :
  In k (List.map id l) -> existsb (fun r => id r =? k) l = true.
Proof.
  intros H. apply List.in_map_iff in H. destruct H as (r & Hr & Hin).
  apply List.existsb_exists. exists r. split; [exact Hin|]. now apply Z.eqb_eq.
Qed.

Lemma select_fields o p :
  unchanged o p = false ->
  currentSelection (select o p)
  = (if existsb (fun r => id r =? opt_id o) (resolutions p)
     then Some (opt_id o) else currentSelection p)
  /\ called (select o p)
     = called p
       ++ (if opt_fireCallback o
           then List.filter (fun i => i =? opt_id o)
                  (List.map id (resolutions p)) else [])
  /\ triggered (select o p) = triggered p ++ ["resolutions-changed"%string]
  /\ autoResolutionChosenId (select o p) = opt_autoResolutionChosenId o.
Proof.
  intros Hu. unfold select. rewrite Hu.
  pose proof (select_loop_snd o
    (resolutions (set_autoResolutionChosenId (opt_autoResolutionChosenId o) p))
    (set_autoResolutionChosenId (opt_autoResolutionChosenId o) p)) as H.
  cbv zeta in H. destruct (select_loop _ _ _) as [rs p2]. simpl in *.
  destruct H as (Hc & Hk & Ht & Ha). rewrite Hc, Hk, Ht, Ha. auto.
Qed.

Lemma filter_ids_absent k (l : list Resolution) :
  no_entry_with_id k l ->
  List.filter (fun i => i =? k) (List.map id l) = [].
Proof.
  induction 1 as [|r t Hr Ht IH]; simpl; [reflexivity|].
  destruct (Z.eqb_spec (id r) k); [contradiction|exact IH].
Qed.

Lemma filter_ids_distinct k (l : list Resolution) :
  distinct_ids l -> In k (List.map id l) ->
  List.filter (fun i => i =? k) (List.map id l) = [k].
Proof.
  induction l as [|r t IH]; intros Hd Hin; [destruct Hin|].
  destruct (distinct_ids_tail r t Hd) as [Habs Hd'].
  simpl. destruct (Z.eqb_spec (id r) k) as [E|E].
  - subst k. now rewrite filter_ids_absent.
  - destruct Hin as [Hin|Hin]; [contradiction|]. now apply IH.
Qed.

Lemma count_selected_present k (l : list Resolution) :
  distinct_ids l -> In k (List.map id l) ->
  count_selected (List.map (marked k) l) = 1%nat.
Proof.
  induction l as [|r t IH]; intros Hd Hin; [destruct Hin|].
  destruct (distinct_ids_tail r t Hd) as [Habs Hd'].
  unfold count_selected in *. simpl.
  destruct (Z.eqb_spec (id r) k) as [E|E]; simpl.
  - subst k. pose proof (count_selected_absent (id r) t Habs) as H0.
    unfold count_selected in H0. now rewrite H0.
  - destruct Hin as [Hin|Hin]; [contradiction|]. now apply IH.
Qed.

(** X3.  On a registry of distinct ids, a [select] of the id of one of the
    entries that gets past the guard leaves exactly that entry selected,
    makes it the current selection, stores the automatic-mode reference,
    triggers [resolutions-changed] once and calls the [selectCallback] of
    the entry once if [fireCallback] is set and not at all otherwise. *)
Theorem select_marks_the_entry (o : options) (p : t) :
  distinct_ids (resolutions p) ->
  In (opt_id o) (List.map id (resolutions p)) ->
  unchanged o p = false ->
  count_selected (resolutions (select o p)) = 1%nat
  /\ Forall (fun r => selected r = (id r =? opt_id o)) (resolutions (select o p))
  /\ currentSelection (select o p) = Some (opt_id o)
  /\ autoResolutionChosenId (select o p) = opt_autoResolutionChosenId o
  /\ triggered (select o p) = triggered p ++ ["resolutions-changed"%string]
  /\ called (select o p)
     = called p ++ (if opt_fireCallback o then [opt_id o] else []).
Proof.
  intros Hd Hin Hu.
  destruct (select_fields o p Hu) as (Hc & Hk & Ht & Ha).
  rewrite (select_resolutions o p Hu), Hc, Hk, Ht, Ha.
  rewrite (existsb_id _ _ Hin), (filter_ids_distinct _ _ Hd Hin).
  repeat split; try reflexivity.
  - now apply count_selected_present.
  - apply List.Forall_forall. intros r Hr.
    apply List.in_map_iff in Hr. destruct Hr as (r0 & <- & _). reflexivity.
Qed.

(** X4.  [select] of the id of one of the entries is idempotent: a second
    call with the same options returns at the guard and changes nothing,
    so the listeners are notified once. *)
Theorem select_twice (o : options) (p : t) :
  In (opt_id o) (List.map id (resolutions p)) ->
  select o (select o p) = select o p.
Proof.
  intros Hin. destruct (unchanged o p) eqn:Hu.
  - unfold select. now rewrite Hu, Hu.
  - destruct (select_fields o p Hu) as (Hc & _ & _ & Ha).
    rewrite (existsb_id _ _ Hin) in Hc.
    unfold select at 1. unfold unchanged. rewrite Hc, Ha.
    now rewrite strict_eq_refl, strict_eq_value_refl.
Qed.

(** X5.  Whether it returns at the guard or not, [select] changes nothing
    of the entries but their [selected] flags, keeps their order, and
    leaves the requested automatic-mode reference stored. *)
Theorem select_keeps_entries (o : options) (p : t) :
  List.map (set_selected false) (resolutions (select o p))
  = List.map (set_selected false) (resolutions p)
  /\ autoResolutionChosenId (select o p) = opt_autoResolutionChosenId o.
Proof.
  destruct (unchanged o p) eqn:Hu.
  - unfold select. rewrite Hu. split; [reflexivity|].
    unfold unchanged in Hu. apply andb_prop in Hu.
    now apply strict_eq_value_true.
  - split.
    + rewrite (select_resolutions o p Hu), List.map_map. reflexivity.
    + now apply select_fields.
Qed.

(** X6.  [getSelected] returns an entry of the registry whose id is the
    stored automatic-mode reference, and nothing exactly when the
    reference is the id of no entry, as when it is null or undefined. *)
Theorem getSelected_spec (p : t) :
  match getSelected p with
  | Some r => In r (resolutions p)
              /\ autoResolutionChosenId p = JS.number (id r)
  | None => forall r, In r (resolutions p) ->
                      autoResolutionChosenId p <> JS.number (id r)
  end.
Proof.
  unfold getSelected, JS.find.
  destruct (List.find _ _) as [r|] eqn:E.
  - apply List.find_some in E. destruct E as [Hin Heq]. split; [exact Hin|].
    apply strict_eq_value_true in Heq. now symmetry.
  - intros r Hin Heq.
    pose proof (List.find_none _ _ E r Hin) as H. cbv beta in H.
    rewrite Heq, strict_eq_value_refl in H. discriminate.
Qed.

Lemma select_marks_the_entry_witness :
  count_selected
    (resolutions
       (select (mkOptions 1%Z (JS.number 0%Z) true)
          (run [Add [Examples.r720; Examples.r1080; Examples.r480_selected]]
               init))) = 1%nat.
Proof.
  apply select_marks_the_entry.
  - unfold distinct_ids. vm_compute.
    repeat (constructor; [rewrite list_elem_of_In; simpl; lia|]). constructor.
  - vm_compute. auto.
  - reflexivity.
Defined.

Lemma select_twice_witness :
  let p := run [Add [Examples.r720; Examples.r1080]] init in
  select Examples.select_0 (select Examples.select_0 p)
  = select Examples.select_0 p.
Proof.
  apply select_twice. vm_compute. auto.
Defined.

End RegistryMore.

(** ** Further properties of the error-recovery policy *)

Section PolicyMore.

Import Html5Hlsjs Spec Provider.

Variable engine : Hls.reaction.
Variable player_srOptions_ : option srOptions.
Variable localize : string -> string.
Variable kbps : Z -> string.

Local Abbreviation NETWORK_ERROR := Hls.ErrorTypes.NETWORK_ERROR.
Local Abbreviation MEDIA_ERROR := Hls.ErrorTypes.MEDIA_ERROR.
Local Abbreviation incompatibleCodecs := "manifestIncompatibleCodecsError"%string.
Local Abbreviation handle_all :=
  (Provider.handle_all engine player_srOptions_ localize kbps).
Local Abbreviation handle :=
  (Provider.handle engine player_srOptions_ localize kbps).

(** *** What running closures leaves alone *)

Lemma run_closure_frame c s :
  window (run_closure engine c s) = window s
  /\ tech (run_closure engine c s) = tech s
  /\ podResolutions (run_closure engine c s) = podResolutions s
  /\ maxNetworkErrorRecovery (run_closure engine c s) = maxNetworkErrorRecovery s
  /\ errorCounts (run_closure engine c s) !! MEDIA_ERROR
     = errorCounts s !! MEDIA_ERROR.
Proof.
  destruct c; simpl; repeat split; try reflexivity.
  apply lookup_insert_ne. discriminate.
Qed.

Lemma run_closures_frame {A} (f : A -> closure) (xs : list A) s :
  let s' := List.fold_left (fun s x => run_closure engine (f x) s) xs s in
  window s' = window s
  /\ tech s' = tech s
  /\ podResolutions s' = podResolutions s
  /\ maxNetworkErrorRecovery s' = maxNetworkErrorRecovery s
  /\ errorCounts s' !! MEDIA_ERROR = errorCounts s !! MEDIA_ERROR.
Proof.
  cbv zeta. revert s. induction xs as [|x xs IH]; intros s; simpl; [auto 6|].
  destruct (IH (run_closure engine (f x) s)) as (Hw & Ht & Hp & Hm & Hc).
  destruct (run_closure_frame (f x) s) as (Hw' & Ht' & Hp' & Hm' & Hc').
  rewrite Hw, Ht, Hp, Hm, Hc. auto 6.
Qed.

Lemma emit_FRAG_LOADED_frame s :
  let s' := emit_FRAG_LOADED engine s in
  window s' = window s
  /\ tech s' = tech s
  /\ podResolutions s' = podResolutions s
  /\ maxNetworkErrorRecovery s' = maxNetworkErrorRecovery s
  /\ errorCounts s' !! MEDIA_ERROR = errorCounts s !! MEDIA_ERROR.
Proof.
  cbv zeta. unfold emit_FRAG_LOADED.
  match goal with |- context [List.fold_left _ ?xs ?s0] =>
    pose proof (run_closures_frame (fun c => c) xs s0) as H
  end.
  cbv beta zeta in H. destruct H as (Hw & Ht & Hp & Hm & Hc).
  rewrite Hw, Ht, Hp, Hm, Hc. simpl. auto 6.
Qed.

Lemma elapse_frame ms s :
  let s' := elapse engine ms s in
  tech s' = tech s
  /\ podResolutions s' = podResolutions s
  /\ maxNetworkErrorRecovery s' = maxNetworkErrorRecovery s
  /\ errorCounts s' !! MEDIA_ERROR = errorCounts s !! MEDIA_ERROR.
Proof.
  cbv zeta. unfold elapse.
  match goal with |- context [List.fold_left _ ?xs ?s0] =>
    pose proof (run_closures_frame callback xs s0) as H
  end.
  cbv beta zeta in H. destruct H as (_ & Ht & Hp & Hm & Hc).
  rewrite Ht, Hp, Hm, Hc. simpl. auto.
Qed.

(** *** Network errors and loaded fragments *)

Lemma network_retries_listener data s n :
  type data = NETWORK_ERROR -> navigator_onLine (window s) = true ->
  occurrence NETWORK_ERROR s = 1 ->
  (1 <= n)%nat -> Z.of_nat n <= maxNetworkErrorRecovery s ->
  In reset_network_errorCount
     (once_FRAG_LOADED (hls (errors engine n data s))).
Proof.
  intros Hty Hon H1 Hpos Hn. destruct n as [|k]; [lia|].
  destruct (network_retries engine data s k Hty Hon H1) as (Ho & Hm & Hl & _);
    [lia|].
  change (errors engine (S k) data s)
    with (_onError engine data (errors engine k data s)).
  rewrite network_retry; [|exact Hty|exact Hl|lia].
  simpl. apply in_or_app. right. now left.
Qed.

(** X7.  The ceiling counts the network errors since the last fragment
    that was loaded: after one or more network errors within the ceiling,
    an [FRAG_LOADED] event makes the next network error a first occurrence
    again, so that as many errors as the ceiling allows are retried once
    more, none of them reaching the tech. *)
Theorem fragment_restarts_the_count (data : ErrorData) (s : t) (n m : nat) :
  type data = NETWORK_ERROR -> navigator_onLine (window s) = true ->
  occurrence NETWORK_ERROR s = 1 ->
  (1 <= n)%nat -> Z.of_nat n <= maxNetworkErrorRecovery s ->
  Z.of_nat m <= maxNetworkErrorRecovery s ->
  let s1 := emit_FRAG_LOADED engine (errors engine n data s) in
  occurrence NETWORK_ERROR s1 = 1
  /\ timeouts (window (errors engine m data s1))
     = timeouts (window s) ++ replicate (n + m) retry
  /\ tech (errors engine m data s1) = tech s
  /\ podResolutions (errors engine m data s1) = podResolutions s.
Proof.
  intros Hty Hon H1 Hpos Hn Hm. cbv zeta.
  destruct (network_retries engine data s n Hty Hon H1 Hn)
    as (_ & Hmax & Hl & Ht & _ & _ & Hp & Hx).
  pose proof (network_retries_listener data s n Hty Hon H1 Hpos Hn) as Hin.
  destruct (emit_FRAG_LOADED_frame (errors engine n data s))
    as (Hw' & Ht' & Hp' & Hm' & _).
  assert (occurrence NETWORK_ERROR
            (emit_FRAG_LOADED engine (errors engine n data s)) = 1) as H1'.
  { unfold occurrence. now rewrite emit_FRAG_LOADED_resets. }
  split; [exact H1'|].
  destruct (network_retries engine data
              (emit_FRAG_LOADED engine (errors engine n data s)) m Hty)
    as (_ & _ & _ & Ht2 & _ & _ & Hp2 & Hx2).
  - now rewrite Hw'.
  - exact H1'.
  - rewrite Hm', Hmax. exact Hm.
  - rewrite Ht2, Hp2, Hx2, Hw', Ht', Hp', Ht, Hp, Hx.
    rewrite replicate_add, app_assoc. auto.
Qed.

(** X8.  Once a [LEVEL_LOADED] event has reported a live stream, thirty
    network errors in a row are retried and the thirty-first takes the
    unrecoverable path; a later [LEVEL_LOADED] event, live or not, leaves
    the ceiling at 30. *)
Theorem live_ceiling (d : LevelDetails) (data : ErrorData) (s : t) :
  live d = true ->
  type data = NETWORK_ERROR -> navigator_onLine (window s) = true ->
  occurrence NETWORK_ERROR s = 1 ->
  let s0 := on_LEVEL_LOADED d s in
  (forall n, (n <= 30)%nat ->
     timeouts (window (errors engine n data s0))
     = timeouts (window s) ++ replicate n retry
     /\ tech (errors engine n data s0) = tech s)
  /\ errors engine 31 data s0
     = _handleUnrecovarableError engine (with_code 2 (error_of data))
         (count_error data (errors engine 30 data s0))
  /\ (forall d', maxNetworkErrorRecovery (on_LEVEL_LOADED d' s0) = 30).
Proof.
  intros Hlive Hty Hon H1. cbv zeta.
  assert (maxNetworkErrorRecovery (on_LEVEL_LOADED d s) = 30) as Hmax
    by (simpl; now rewrite Hlive).
  split; [|split].
  - intros n Hn.
    destruct (network_retries engine data (on_LEVEL_LOADED d s) n Hty Hon H1)
      as (_ & _ & _ & Ht & _ & _ & _ & Hx); [rewrite Hmax; lia|].
    rewrite Ht, Hx. auto.
  - destruct (network_retries engine data (on_LEVEL_LOADED d s) 30 Hty Hon H1)
      as (Ho & Hm & Hl & _); [rewrite Hmax; lia|].
    change (errors engine 31 data (on_LEVEL_LOADED d s))
      with (_onError engine data (errors engine 30 data (on_LEVEL_LOADED d s))).
    apply network_exceeded; [exact Hty|exact Hl|].
    rewrite Hm, Hmax, Ho. lia.
  - intros d'. simpl. rewrite Hlive. now destruct (live d').
Qed.

(** *** The media counter *)

Lemma handlers_error_errorCounts m s :
  errorCounts (handlers_error engine m s) = errorCounts s.
Proof.
  unfold handlers_error. destruct m as [e|]; [|reflexivity].
  destruct (me_code e =? MEDIA_ERR_DECODE); [|reflexivity].
  apply media_errorCounts.
Qed.

Lemma handlers_error_decode_first e s :
  errorCounts s !! MEDIA_ERROR = Some 1 -> me_code e = MEDIA_ERR_DECODE ->
  handlers_error engine (Some e) s = hls_call engine Hls.recoverMediaError s.
Proof.
  intros Hone Hcode. unfold handlers_error. rewrite Hcode, Z.eqb_refl.
  now apply media_first.
Qed.

Lemma handle_media_count s e :
  default 0 (errorCounts s !! MEDIA_ERROR)
  <= default 0 (errorCounts (handle s e) !! MEDIA_ERROR).
Proof.
  destruct e as [data|levels manualLevel|d|level| | |m|ms]; simpl.
  - rewrite onError_errorCounts.
    destruct (String.eqb_spec (type data) MEDIA_ERROR) as [E|E].
    + rewrite E, counted_lookup. simpl. lia.
    + rewrite counted_lookup_ne by congruence. lia.
  - unfold _onMetaData, _notifyVideoQualities.
    destruct (level_resolutions _ _ _ _ _); simpl; lia.
  - lia.
  - lia.
  - destruct (emit_FRAG_LOADED_frame s) as (_ & _ & _ & _ & Hc).
    rewrite Hc. lia.
  - destruct (listens "play" s); simpl; lia.
  - destruct (listens "error" s); [|lia].
    rewrite handlers_error_errorCounts. lia.
  - destruct (elapse_frame ms s) as (_ & _ & _ & Hc). rewrite Hc. lia.
Qed.

Lemma handle_all_media_count es s :
  default 0 (errorCounts s !! MEDIA_ERROR)
  <= default 0 (errorCounts (handle_all es s) !! MEDIA_ERROR).
Proof.
  revert s. induction es as [|e es IH]; intros s; simpl; [lia|].
  etransitivity; [apply (handle_media_count s e)|apply IH].
Qed.

(** X9.  Nothing resets the media error counter: whatever events reach the
    provider, of the engine, of the video element or of the clock, the
    counter does not decrease.  Once two media errors were counted, every
    later fatal media error whose detail is not
    [manifestIncompatibleCodecsError] takes the unrecoverable path,
    whatever happened in between. *)
Theorem media_ladder_is_never_reset (es : list event) (s : t) :
  default 0 (errorCounts s !! MEDIA_ERROR)
  <= default 0 (errorCounts (handle_all es s) !! MEDIA_ERROR)
  /\ (forall data,
        type data = MEDIA_ERROR -> fatal data = true ->
        details data <> incompatibleCodecs ->
        2 <= default 0 (errorCounts s !! MEDIA_ERROR) ->
        _onError engine data (handle_all es s)
        = _handleUnrecovarableError engine (with_code 3 (error_of data))
            (count_error data (handle_all es s))).
Proof.
  split; [apply handle_all_media_count|].
  intros data Hty Hf Hd H2.
  apply (media_step engine data _ Hty Hf Hd).
  pose proof (handle_all_media_count es s) as Hle.
  unfold occurrence. lia.
Qed.

(** X10.  An [error] event of the video element counts nothing.  Before
    any media error of the engine it does nothing at all; while the
    counter reads 1, every decode error of the element calls
    [recoverMediaError] again and none reaches the tech. *)
Theorem element_errors_are_not_counted (e : MediaError) (s : t) (n : nat) :
  (forall m, errorCounts (handlers_error engine m s) = errorCounts s)
  /\ (errorCounts s !! MEDIA_ERROR = None ->
      forall m, handlers_error engine m s = s)
  /\ (errorCounts s !! MEDIA_ERROR = Some 1 -> me_code e = MEDIA_ERR_DECODE ->
      let s' := Nat.iter n (handlers_error engine (Some e)) s in
      hls_calls (hls s')
      = hls_calls (hls s) ++ replicate n Hls.recoverMediaError
      /\ tech s' = tech s
      /\ errorCounts s' = errorCounts s).
Proof.
  split; [intros m; apply handlers_error_errorCounts|]. split.
  - intros Hnone [m|]; simpl; [|reflexivity].
    destruct (me_code m =? MEDIA_ERR_DECODE); [|reflexivity].
    unfold _handleMediaError. now rewrite Hnone.
  - intros Hone Hcode. cbv zeta. induction n as [|n IH].
    + simpl. rewrite app_nil_r. auto.
    + destruct IH as (Hc & Ht & He).
      rewrite replicate_S_end, app_assoc, <- Hc, <- Ht, <- He.
      change (Nat.iter (S n) (handlers_error engine (Some e)) s)
        with (handlers_error engine (Some e)
                (Nat.iter n (handlers_error engine (Some e)) s)).
      rewrite handlers_error_decode_first;
        [simpl; auto | now rewrite He | exact Hcode].
Qed.

End PolicyMore.

(** ** Properties of the listeners of the provider *)

Section Adapter.

Import PodResolutionsPlugin Html5Hlsjs Spec Provider.

Variable localize : string -> string.
Variable kbps : Z -> string.

Local Abbreviation _onMetaData sr :=
  (Provider._onMetaData sr localize kbps).
Local Abbreviation auto_resolution := (Provider.auto_resolution localize).

Lemma level_resolutions_defined sr manualLevel index levels :
  exists rs,
    level_resolutions (Some sr) kbps manualLevel index levels = Some rs
    /\ List.map id rs = seqZ index (Z.of_nat (length levels))
    /\ Forall (fun r => height r <> None) rs.
Proof.
  revert index. induction levels as [|level rest IH]; intros index.
  - exists []. repeat split. constructor.
  - destruct (IH (index + 1)) as (rs & E & Hids & Hh).
    simpl level_resolutions. rewrite E. simpl.
    eexists. split; [reflexivity|]. split.
    + simpl List.map. rewrite Hids. simpl length.
      rewrite (seqZ_cons index) by lia.
      f_equal. f_equal; lia.
    + constructor; [discriminate|exact Hh].
Qed.

Lemma level_resolutions_well_formed sr manualLevel index levels rs :
  0 <= index ->
  level_resolutions (Some sr) kbps manualLevel index levels = Some rs ->
  Forall (fun r => has_height r = true) rs
  /\ Forall (fun r => is_auto r = false) rs.
Proof.
  intros Hi E.
  destruct (level_resolutions_defined sr manualLevel index levels)
    as (rs' & E' & Hids & Hh).
  rewrite E in E'. injection E' as <-.
  split.
  - eapply Forall_impl; [exact Hh|]. intros r Hr. unfold has_height.
    destruct (height r) eqn:Eh; [apply Bool.orb_true_r|congruence].
  - apply List.Forall_forall. intros r Hr.
    assert (In (id r) (seqZ index (Z.of_nat (length levels)))) as Hin
      by (rewrite <- Hids; now apply List.in_map).
    apply list_elem_of_In, elem_of_seqZ in Hin.
    unfold is_auto. apply Z.eqb_neq. lia.
Qed.

Lemma insert_before_auto x t a :
  is_auto x = false -> is_auto a = true ->
  exists t', JS.sort_insert compare x (t ++ [a]) = t' ++ [a].
Proof.
  intros Hx Ha. induction t as [|y t IH]; simpl.
  - unfold compare. unfold is_auto in Hx, Ha. rewrite Hx, Ha. simpl.
    now exists [x].
  - destruct (compare x y <=? 0).
    + now exists (x :: y :: t).
    + destruct IH as (t' & E). rewrite E. now exists (y :: t').
Qed.

Lemma sort_ends_with_auto rs a :
  Forall (fun r => is_auto r = false) rs -> is_auto a = true ->
  exists t, JS.sort compare (rs ++ [a]) = t ++ [a].
Proof.
  intros Hrs Ha. unfold JS.sort. rewrite List.fold_right_app. simpl.
  induction Hrs as [|x rs Hx Hrs IH]; simpl.
  - now exists [].
  - destruct IH as (t & E). rewrite E. now apply insert_before_auto.
Qed.

Lemma onMetaData_returns sr levels manualLevel s :
  exists rs,
    level_resolutions (Some sr) kbps manualLevel 0 levels = Some rs
    /\ _onMetaData (Some sr) levels manualLevel s
       = Returned
           (set_podResolutions
              (add (rs ++ [auto_resolution]) (podResolutions s)) s).
Proof.
  destruct (level_resolutions_defined sr manualLevel 0 levels) as (rs & E & _).
  exists rs. split; [exact E|].
  unfold Provider._onMetaData, _notifyVideoQualities. now rewrite E.
Qed.

(** X11.  With [srOptions_] defined, a [MANIFEST_PARSED] event that
    reaches a provider whose registry is empty leaves in the registry one
    entry per level, the ids being the indices 0, 1, ... of the levels, and
    the automatic entry: the ids are distinct, the entries are in
    descending order of height and the automatic entry is last;
    [resolutions-added] is triggered once. *)
Theorem manifest_fills_an_empty_registry (sr : srOptions)
    (levels : list Hls.Level) (manualLevel : Z) (s : Html5Hlsjs.t) :
  resolutions (podResolutions s) = [] ->
  let s' := state_of (_onMetaData (Some sr) levels manualLevel s) in
  let rs := resolutions (podResolutions s') in
  Permutation (List.map id rs) (seqZ 0 (Z.of_nat (length levels)) ++ [-1])
  /\ distinct_ids rs
  /\ sorted_desc rs
  /\ last rs = Some auto_resolution
  /\ triggered (podResolutions s')
     = triggered (podResolutions s) ++ ["resolutions-added"%string].
Proof.
  intros Hempty. cbv zeta.
  destruct (onMetaData_returns sr levels manualLevel s) as (rs & E & ->).
  destruct (level_resolutions_defined sr manualLevel 0 levels)
    as (rs' & E' & Hids & _).
  rewrite E in E'. injection E' as <-.
  destruct (level_resolutions_well_formed sr manualLevel 0 levels rs) as [Hh Hna];
    [lia|exact E|].
  simpl. rewrite Hempty. simpl.
  assert (Permutation (List.map id (JS.sort compare (rs ++ [auto_resolution])))
            (seqZ 0 (Z.of_nat (length levels)) ++ [-1])) as Hperm.
  { rewrite (Permutation_map id (sort_permutation compare _)).
    rewrite List.map_app, Hids. reflexivity. }
  split; [exact Hperm|]. split; [|split; [|split]].
  - unfold distinct_ids. rewrite Hperm. apply NoDup_app.
    split; [apply NoDup_seqZ|]. split; [|apply NoDup_singleton].
    intros x Hx Hx'. apply elem_of_seqZ in Hx.
    apply list_elem_of_singleton in Hx'. lia.
  - apply sort_sorted. apply Forall_app. split; [exact Hh|].
    repeat constructor.
  - destruct (sort_ends_with_auto rs auto_resolution Hna) as (t & Et);
      [reflexivity|].
    rewrite Et. apply last_snoc.
  - reflexivity.
Qed.

Lemma find_none_of_null v (l : list Resolution) :
  (forall n, v <> JS.number n) ->
  List.find (fun r => JS.strict_eq_value (JS.number (id r)) v) l = None.
Proof.
  intros Hv. induction l as [|r l IH]; simpl; [reflexivity|].
  destruct v as [| |n]; simpl; try exact IH.
  now destruct (Hv n).
Qed.

Lemma add_currentSelection_null rs p :
  (forall n, autoResolutionChosenId p <> JS.number n) ->
  currentSelection (add rs p) = None.
Proof.
  intros H. simpl. unfold getSelected, JS.find. simpl.
  now rewrite (find_none_of_null _ _ H).
Qed.

(** X12.  The first [LEVEL_SWITCHING] event after the manifest, on a
    registry that had no automatic-mode reference yet (the stored
    reference is null or undefined, not a number), gets past the guard
    of [select]: with automatic level selection enabled exactly the
    automatic entries are selected and the level is stored as the
    automatic-mode reference; with a manual level exactly the entries of
    that id are selected and the reference is -1.  Nothing else of the
    entries changes. *)
Theorem first_level_switch (sr : srOptions) (levels : list Hls.Level)
    (manualLevel level : Z) (s : Html5Hlsjs.t) :
  (forall n, autoResolutionChosenId (podResolutions s) <> JS.number n) ->
  let s1 := state_of (_onMetaData (Some sr) levels manualLevel s) in
  let s2 := on_LEVEL_SWITCHING level s1 in
  let auto := Hls.autoLevelEnabled (hls_props (hls s)) in
  Forall (fun r => selected r = (id r =? (if auto then -1 else level)))
         (resolutions (podResolutions s2))
  /\ List.map (set_selected false) (resolutions (podResolutions s2))
     = List.map (set_selected false) (resolutions (podResolutions s1))
  /\ autoResolutionChosenId (podResolutions s2)
     = JS.number (if auto then level else -1)
  /\ (auto = true -> currentSelection (podResolutions s2) = Some (-1))
  /\ triggered (podResolutions s2)
     = triggered (podResolutions s)
       ++ ["resolutions-added"%string; "resolutions-changed"%string].
Proof.
  intros Hnull. cbv zeta.
  destruct (onMetaData_returns sr levels manualLevel s) as (rs & E & ->).
  unfold on_LEVEL_SWITCHING. simpl state_of.
  set (p1 := add (rs ++ [auto_resolution]) (podResolutions s)).
  change (hls (set_podResolutions p1 s)) with (hls s).
  change (podResolutions (set_podResolutions p1 s)) with p1.
  change (podResolutions (set_podResolutions ?q (set_podResolutions p1 s)))
    with q.
  set (o := {| opt_id := _; opt_autoResolutionChosenId := _;
               opt_fireCallback := false |}).
  assert (unchanged o p1 = false) as Hu.
  { unfold unchanged. subst p1.
    now rewrite (add_currentSelection_null _ _ Hnull). }
  destruct (select_fields o p1 Hu) as (Hc & _ & Ht & Ha).
  rewrite (select_resolutions o p1 Hu), Hc, Ht, Ha.
  repeat split.
  - apply List.Forall_forall. intros r Hr.
    apply List.in_map_iff in Hr. destruct Hr as (r0 & <- & _). reflexivity.
  - rewrite List.map_map. reflexivity.
  - intros Hauto. subst o. simpl opt_id. rewrite Hauto.
    rewrite existsb_id; [reflexivity|].
    subst p1. simpl resolutions.
    apply (Permutation_in _ (Permutation_map id
             (Permutation_sym (sort_permutation compare _)))).
    rewrite !List.map_app. apply in_or_app. right.
    apply in_or_app. right. simpl. now left.
  - subst p1. simpl. now rewrite <- app_assoc.
Qed.

(** X13.  While [player.srOptions_] is undefined, a [MANIFEST_PARSED]
    event with at least one level throws at the label of the first level:
    the registry gets no entry and no event. *)
Theorem manifest_without_srOptions (levels : list Hls.Level)
    (manualLevel : Z) (s : Html5Hlsjs.t) :
  levels <> [] ->
  _onMetaData None levels manualLevel s = TypeError s.
Proof.
  intros H. destruct levels as [|level rest]; [contradiction|reflexivity].
Qed.

(** X14.  The provider does not recognise entries it announced before:
    with [srOptions_] defined, every [MANIFEST_PARSED] event adds one entry
    per level and one automatic entry to those of the registry, so that
    from the second event on the ids are no longer distinct. *)
Theorem manifest_adds_every_level_again (sr : srOptions)
    (levels : list Hls.Level) (manualLevel : Z) (s : Html5Hlsjs.t) :
  let s' := state_of (_onMetaData (Some sr) levels manualLevel s) in
  length (resolutions (podResolutions s'))
  = (length (resolutions (podResolutions s)) + length levels + 1)%nat
  /\ (In (-1) (List.map id (resolutions (podResolutions s))) ->
      ~ distinct_ids (resolutions (podResolutions s'))).
Proof.
  cbv zeta.
  destruct (onMetaData_returns sr levels manualLevel s) as (rs & E & ->).
  destruct (level_resolutions_defined sr manualLevel 0 levels)
    as (rs' & E' & Hids & _).
  rewrite E in E'. injection E' as <-.
  simpl state_of.
  change (podResolutions (set_podResolutions ?p ?x)) with p.
  assert (Permutation
            (resolutions (add (rs ++ [auto_resolution]) (podResolutions s)))
            (resolutions (podResolutions s) ++ rs ++ [auto_resolution])) as Hperm
    by apply sort_permutation.
  split.
  - rewrite (Permutation_length Hperm), !length_app.
    rewrite <- (length_map id rs), Hids, length_seqZ. simpl. lia.
  - intros Hin Hd. unfold distinct_ids in Hd.
    rewrite (Permutation_map id Hperm), !List.map_app in Hd.
    apply NoDup_app in Hd. destruct Hd as (_ & Hdis & _).
    apply (Hdis (-1)).
    + now apply list_elem_of_In.
    + apply list_elem_of_In, in_or_app. right. simpl. now left.
Qed.

(** X15.  After a [LEVEL_LOADED] event of a live stream [duration()] is
    [Infinity] whatever the video element reports; after one of a stream
    that is not live it is the duration of the element, and the total
    duration of the level while the element has none. *)
Theorem duration_after_level_loaded (d : LevelDetails) (s : Html5Hlsjs.t) :
  (live d = true ->
   forall v, Provider.duration v (on_LEVEL_LOADED d s) = Infinity)
  /\ (live d = false ->
      Provider.duration None (on_LEVEL_LOADED d s) = Seconds (totalduration d)
      /\ forall x, Provider.duration (Some x) (on_LEVEL_LOADED d s) = x).
Proof.
  unfold Provider.duration. simpl. split; intros ->.
  - reflexivity.
  - split; [|reflexivity].
    destruct (Z.eqb_spec (totalduration d) 0) as [->|]; reflexivity.
Qed.

End Adapter.

(** ** Properties of the hooks *)

Section HooksProperties.

Import Hooks.

Lemma indexOf_None cb l : JSLib.indexOf cb l = None <-> ~ In cb l.
Proof.
  induction l as [|y t IH]; simpl.
  - split; auto.
  - destruct (Nat.eqb_spec y cb) as [->|Hne].
    + split; [discriminate|]. intros H. exfalso. apply H. now left.
    + destruct (JSLib.indexOf cb t); simpl.
      * split; [discriminate|]. intros H. exfalso.
        assert (~ In cb t) as Ht by (intros Hin; apply H; now right).
        apply IH in Ht. discriminate.
      * split; [|reflexivity]. intros _ [E|Hin]; [contradiction|].
        now apply (proj1 IH).
Qed.

Lemma indexOf_Some cb l index :
  JSLib.indexOf cb l = Some index ->
  exists l1 l2, l = l1 ++ cb :: l2 /\ ~ In cb l1
                /\ JSLib.splice1 index l = l1 ++ l2.
Proof.
  revert index. induction l as [|y t IH]; intros index; simpl; [discriminate|].
  destruct (Nat.eqb_spec y cb) as [->|Hne].
  - intros [= <-]. exists [], t. repeat split. auto.
  - destruct (JSLib.indexOf cb t) as [i|]; simpl; [|discriminate].
    intros [= <-]. destruct (IH i eq_refl) as (l1 & l2 & -> & Hnot & Hs).
    exists (y :: l1), l2. simpl. rewrite Hs. repeat split.
    intros [E|Hin]; [contradiction|]. now apply Hnot.
Qed.

Lemma indexOf_new cb l :
  ~ In cb l ->
  exists index, JSLib.indexOf cb (l ++ [cb]) = Some index
                /\ JSLib.splice1 index (l ++ [cb]) = l.
Proof.
  induction l as [|y t IH]; intros Hnot; simpl.
  - rewrite Nat.eqb_refl. now exists O.
  - destruct (Nat.eqb_spec y cb) as [->|Hne].
    + exfalso. apply Hnot. now left.
    + destruct IH as (i & -> & Hs); [intros Hin; apply Hnot; now right|].
      exists (S i). simpl. now rewrite Hs.
Qed.

(** On a type under which nothing is inherited, [hooks[type]] is the own
    array, if any. *)
Lemma get_own ty (h : gmap string (list nat)) :
  inherited ty = None -> get ty h = callbacks <$> (h !! ty).
Proof. intros H. unfold get. rewrite H. now destruct (h !! ty). Qed.

Lemma get_insert ty l (h : gmap string (list nat)) :
  get ty (<[ty := l]> h) = Some (callbacks l).
Proof. unfold get. now rewrite lookup_insert_eq. Qed.

Lemma get_insert_ne ty ty' l (h : gmap string (list nat)) :
  ty' <> ty -> get ty' (<[ty := l]> h) = get ty' h.
Proof. intros H. unfold get. now rewrite lookup_insert_ne by congruence. Qed.

Lemma executeHooksFor_own ty (h : gmap string (list nat)) :
  inherited ty = None ->
  _executeHooksFor ty h = Returned (default [] (h !! ty)).
Proof.
  intros H. unfold _executeHooksFor. rewrite (get_own ty h H).
  now destruct (h !! ty).
Qed.

(** The call of [_initHlsjs] returns: nothing is inherited under
    [beforeinitialize]. *)
Lemma beforeinitialize_returns (h : gmap string (list nat)) :
  _executeHooksFor "beforeinitialize" h
  = Returned (default [] (h !! "beforeinitialize")).
Proof. now apply executeHooksFor_own. Qed.

Lemma addHook_own ty cb (h : gmap string (list nat)) :
  inherited ty = None ->
  addHook ty cb h = Returned (<[ty := default [] (h !! ty) ++ [cb]]> h).
Proof.
  intros H. unfold addHook. rewrite (get_own ty h H).
  now destruct (h !! ty).
Qed.

(** X16.  For a hook type that is not a property name of
    [Object.prototype], [removeHook] undoes [addHook]: both calls return,
    and for a callback that was not registered for the type [removeHook]
    returns true and the callbacks that [_executeHooksFor] calls are those
    of before, for every type. *)
Theorem addHook_then_removeHook (ty : string) (cb : callback)
    (h : gmap string (list callback)) :
  inherited ty = None ->
  ~ In cb (default [] (h !! ty)) ->
  exists h1 h2,
    addHook ty cb h = Returned h1
    /\ removeHook ty cb h1 = Returned (true, h2)
    /\ forall ty', _executeHooksFor ty' h2 = _executeHooksFor ty' h.
Proof.
  intros Hty Hnot.
  destruct (indexOf_new cb _ Hnot) as (i & Ei & Es).
  exists (<[ty := default [] (h !! ty) ++ [cb]]> h).
  exists (<[ty := default [] (h !! ty)]>
            (<[ty := default [] (h !! ty) ++ [cb]]> h)).
  split; [now apply addHook_own|]. split.
  - unfold removeHook. rewrite get_insert, Ei, Es. reflexivity.
  - intros ty'. destruct (decide (ty' = ty)) as [->|Hne].
    + rewrite !executeHooksFor_own by exact Hty.
      now rewrite lookup_insert_eq.
    + unfold _executeHooksFor. now rewrite !get_insert_ne by exact Hne.
Qed.

(** X17.  [removeHook] returns false, and leaves the hooks as they are,
    exactly when [hooks[type]] is undefined or an array that does not hold
    the callback.  It throws exactly when [hooks[type]] is a value that the
    hooks object inherits from [Object.prototype], as for the types
    [toString] and [constructor] while no callback is registered for
    them. *)
Theorem removeHook_unregistered (ty : string) (cb : callback)
    (h : gmap string (list callback)) :
  (removeHook ty cb h = Returned (false, h)
   <-> match get ty h with
       | None => True
       | Some (callbacks l) => ~ In cb l
       | Some (not_an_array _) => False
       end)
  /\ (forall h', removeHook ty cb h = Returned (false, h') -> h' = h)
  /\ (removeHook ty cb h = TypeError
      <-> exists n, get ty h = Some (not_an_array n))
  /\ removeHook "toString" cb ∅ = TypeError
  /\ removeHook "constructor" cb ∅ = TypeError.
Proof.
  unfold removeHook. split; [|split; [|split; [|split; reflexivity]]].
  - destruct (get ty h) as [[l|n]|]; [| |tauto].
    + destruct (JSLib.indexOf cb l) as [i|] eqn:E.
      * split; [discriminate|]. intros Hnot.
        apply indexOf_None in Hnot. congruence.
      * split; [|reflexivity]. intros _. now apply indexOf_None.
    + split; [discriminate|contradiction].
  - intros h'. destruct (get ty h) as [[l|n]|]; [| |congruence].
    + destruct (JSLib.indexOf cb l); congruence.
    + discriminate.
  - destruct (get ty h) as [[l|n]|].
    + destruct (JSLib.indexOf cb l); split; try discriminate;
        intros [m Hm]; discriminate Hm.
    + split; [intros _; now exists n|reflexivity].
    + split; [discriminate|intros [m Hm]; discriminate Hm].
Qed.

(** X18.  When [removeHook] returns true it has taken out the first
    registration of the callback for the type and nothing else: the other
    callbacks of the type keep their order, a second registration of the
    same callback stays, and the other types are untouched. *)
Theorem removeHook_first_registration (ty : string) (cb : callback)
    (h h' : gmap string (list callback)) :
  removeHook ty cb h = Returned (true, h') ->
  exists l1 l2,
    _executeHooksFor ty h = Returned (l1 ++ cb :: l2)
    /\ ~ In cb l1
    /\ _executeHooksFor ty h' = Returned (l1 ++ l2)
    /\ forall ty', ty' <> ty ->
         _executeHooksFor ty' h' = _executeHooksFor ty' h.
Proof.
  unfold removeHook, _executeHooksFor.
  destruct (get ty h) as [[l|n]|] eqn:El; [| discriminate | discriminate].
  destruct (JSLib.indexOf cb l) as [i|] eqn:E; [|discriminate].
  intros [= <-]. destruct (indexOf_Some cb l i E) as (l1 & l2 & -> & Hnot & Hs).
  exists l1, l2. rewrite get_insert, Hs.
  repeat split; try reflexivity; try exact Hnot.
  intros ty' Hne. now rewrite get_insert_ne by exact Hne.
Qed.

Lemma addHooks_own ty cbs (h : gmap string (list nat)) :
  inherited ty = None ->
  exists h',
    addHooks ty cbs h = Returned h'
    /\ h' !! ty = match cbs with
                  | [] => h !! ty
                  | _ :: _ => Some (default [] (h !! ty) ++ cbs)
                  end
    /\ forall ty', ty' <> ty -> h' !! ty' = h !! ty'.
Proof.
  intros Hty. revert h. induction cbs as [|cb cbs IH]; intros h.
  - exists h. repeat split.
  - simpl addHooks. rewrite (addHook_own ty cb h Hty).
    destruct (IH (<[ty := default [] (h !! ty) ++ [cb]]> h))
      as (h' & E & Hl & Ho).
    exists h'. split; [exact E|]. split.
    + rewrite Hl, lookup_insert_eq.
      destruct cbs; simpl; [reflexivity|].
      now rewrite <- app_assoc.
    + intros ty' Hne. rewrite (Ho ty' Hne).
      now rewrite lookup_insert_ne by congruence.
Qed.

(** X19.  For a hook type that is not a property name of
    [Object.prototype], every [addHook] returns and [_executeHooksFor]
    calls the callbacks of the type in the order in which they were
    registered, once per registration; callbacks added for one type are
    not called for another.  After [removeAllHooks] no callback is called
    for any type: the call returns with nothing called, except for a type
    under which the hooks object inherits a function of positive [length]
    (as [constructor]), where it throws. *)
Theorem hooks_run_in_order (ty : string) (cbs : list callback)
    (h : gmap string (list callback)) :
  inherited ty = None ->
  exists h',
    addHooks ty cbs h = Returned h'
    /\ _executeHooksFor ty h' = Returned (default [] (h !! ty) ++ cbs)
    /\ (forall ty', ty' <> ty ->
          _executeHooksFor ty' h' = _executeHooksFor ty' h)
    /\ (forall ty',
          _executeHooksFor ty' (removeAllHooks h')
          = match inherited ty' with
            | Some (S _) => TypeError
            | _ => Returned []
            end).
Proof.
  intros Hty. destruct (addHooks_own ty cbs h Hty) as (h' & E & Hl & Ho).
  exists h'. split; [exact E|]. split; [|split].
  - rewrite (executeHooksFor_own ty h' Hty), Hl.
    destruct cbs; [now rewrite app_nil_r|reflexivity].
  - intros ty' Hne. unfold _executeHooksFor, get. now rewrite (Ho ty' Hne).
  - intros ty'. unfold _executeHooksFor, get, removeAllHooks.
    rewrite lookup_empty. now destruct (inherited ty') as [[|n]|].
Qed.

Lemma addHook_then_removeHook_witness :
  exists h1 h2,
    addHook "beforeinitialize" 2 (<["beforeinitialize"%string := [1%nat]]> ∅)
    = Returned h1
    /\ removeHook "beforeinitialize" 2 h1 = Returned (true, h2).
Proof.
  destruct (addHook_then_removeHook "beforeinitialize" 2
              (<["beforeinitialize"%string := [1%nat]]> ∅))
    as (h1 & h2 & H1 & H2 & _).
  - reflexivity.
  - vm_compute. intros [H|[]]. discriminate H.
  - exists h1, h2. auto.
Defined.

Lemma removeHook_first_registration_witness :
  exists l1 l2,
    _executeHooksFor "beforeinitialize"
      (<["beforeinitialize"%string := [1; 2; 1]%nat]> ∅)
    = Returned (l1 ++ 1%nat :: l2)
    /\ ~ In 1%nat l1
    /\ _executeHooksFor "beforeinitialize"
         (<["beforeinitialize"%string := [2; 1]%nat]>
            (<["beforeinitialize"%string := [1; 2; 1]%nat]> ∅))
       = Returned (l1 ++ l2).
Proof.
  destruct (removeHook_first_registration "beforeinitialize" 1
              (<["beforeinitialize"%string := [1; 2; 1]%nat]> ∅)
              (<["beforeinitialize"%string := [2; 1]%nat]>
                 (<["beforeinitialize"%string := [1; 2; 1]%nat]> ∅)))
    as (l1 & l2 & H1 & H2 & H3 & _).
  - reflexivity.
  - exists l1, l2. auto.
Defined.

Lemma hooks_run_in_order_witness :
  exists h',
    addHooks "beforeinitialize" [1; 2; 1]%nat ∅ = Returned h'
    /\ _executeHooksFor "beforeinitialize" h' = Returned [1; 2; 1]%nat.
Proof.
  destruct (hooks_run_in_order "beforeinitialize" [1; 2; 1]%nat ∅)
    as (h' & H1 & H2 & _).
  - reflexivity.
  - exists h'. split; [exact H1|]. rewrite H2. reflexivity.
Defined.

End HooksProperties.

(** ** Properties of the source handler and of the options plugin *)

Section SourceHandlerProperties.

Import SourceHandler.

Lemma append_nil u : "" +:+ u = u.
Proof. reflexivity. Qed.

Lemma append_cons c a b : String c a +:+ b = String c (a +:+ b).
Proof. reflexivity. Qed.

Lemma lower_app a b : JSLib.lower (a +:+ b) = JSLib.lower a +:+ JSLib.lower b.
Proof.
  induction a as [|c a IH]; [reflexivity|].
  rewrite append_cons. simpl. now rewrite IH, append_cons.
Qed.

Lemma prefix_app p u : JSLib.starts_with p (p +:+ u) = true.
Proof.
  induction p as [|c p IH]; [reflexivity|].
  rewrite append_cons. simpl. now rewrite Ascii.eqb_refl, IH.
Qed.

Lemma ends_with_app p u : JSLib.ends_with p (u +:+ p) = true.
Proof.
  induction u as [|c u IH].
  - rewrite append_nil. destruct p; simpl; [reflexivity|].
    now rewrite Ascii.eqb_refl, String.eqb_refl.
  - rewrite append_cons. simpl. rewrite IH. apply Bool.orb_true_r.
Qed.

Lemma contains_app p u v : JSLib.contains p (u +:+ p +:+ v) = true.
Proof.
  induction u as [|c u IH].
  - rewrite append_nil. destruct p as [|a p]; [now destruct v|].
    rewrite append_cons. simpl.
    now rewrite Ascii.eqb_refl, prefix_app.
  - rewrite append_cons. simpl. rewrite IH. apply Bool.orb_true_r.
Qed.

(** X20.  A source whose type begins with [application/x-mpegURL], in
    whatever case and whatever follows it, and a source whose type ends
    with [application/vnd.apple.mpegurl], whatever precedes it, are
    handled with [probably], whatever the address of the source. *)
Theorem hls_types_are_probably (t u : string) (address : option string) :
  (JSLib.lower t = "application/x-mpegurl"%string ->
   canHandleSource (mkSource address (Some (t +:+ u))) = "probably"%string)
  /\ (JSLib.lower t = "application/vnd.apple.mpegurl"%string ->
      canHandleSource (mkSource address (Some (u +:+ t))) = "probably"%string).
Proof.
  unfold canHandleSource. split; intros H.
  - change (JSLib.ToString (type (mkSource address (Some (t +:+ u)))))
      with (t +:+ u).
    unfold hlsTypeRE. now rewrite lower_app, H, prefix_app.
  - change (JSLib.ToString (type (mkSource address (Some (u +:+ t)))))
      with (u +:+ t).
    unfold hlsTypeRE. now rewrite lower_app, H, ends_with_app, Bool.orb_true_r.
Qed.

(** X21.  A source whose address contains [.m3u8], in whatever case and
    wherever in the address, is never refused: it is handled with
    [probably] if its type is one of the two above and with [maybe]
    otherwise, a missing type included. *)
Theorem m3u8_addresses_are_handled (u e v : string) (ty : option string) :
  JSLib.lower e = ".m3u8"%string ->
  canHandleSource (mkSource (Some (u +:+ e +:+ v)) ty)
  = (if hlsTypeRE (JSLib.ToString ty) then "probably" else "maybe")%string.
Proof.
  intros H. unfold canHandleSource.
  change (JSLib.ToString (src (mkSource (Some (u +:+ e +:+ v)) ty)))
    with (u +:+ e +:+ v).
  change (type (mkSource (Some (u +:+ e +:+ v)) ty)) with ty.
  unfold hlsExtRE. now rewrite !lower_app, H, contains_app.
Qed.

Lemma hls_types_are_probably_witness :
  canHandleSource
    (mkSource None (Some ("Application/X-MpegURL" +:+ "; charset=utf-8")))
  = "probably"%string.
Proof.
  apply (hls_types_are_probably "Application/X-MpegURL" "; charset=utf-8" None).
  reflexivity.
Defined.

Lemma m3u8_addresses_are_handled_witness :
  canHandleSource
    (mkSource (Some ("https://example.org/live" +:+ ".M3U8" +:+ "?token=1")) None)
  = "maybe"%string.
Proof.
  apply (m3u8_addresses_are_handled "https://example.org/live" ".M3U8"
           "?token=1" None).
  reflexivity.
Defined.

Lemma register_calls calls r :
  r = loaded \/ r = mkRegistration true [0] true ->
  List.fold_left (fun r c => registerSourceHandler (fst c) (snd c) r) calls r
  = if alreadyRegistered r || existsb (fun c => fst c && snd c) calls
    then mkRegistration true [0] true else loaded.
Proof.
  revert r. induction calls as [|[supported html5] calls IH]; intros r Hr.
  - simpl. destruct Hr as [->| ->]; reflexivity.
  - simpl. rewrite IH.
    + destruct Hr as [->| ->], supported, html5; reflexivity.
    + destruct Hr as [->| ->], supported, html5; simpl; auto.
Qed.

(** X22.  However often [registerSourceHandler] is called, the [Html5]
    tech is given the source handler at most once: once, at index 0, if
    one of the calls found hls.js supported and the tech present, and not
    at all otherwise. *)
Theorem source_handler_is_registered_once (calls : list (bool * bool)) :
  let r := List.fold_left
             (fun r c => registerSourceHandler (fst c) (snd c) r) calls loaded in
  registered r = (if existsb (fun c => fst c && snd c) calls then [0] else [])
  /\ alreadyRegistered r = existsb (fun c => fst c && snd c) calls
  /\ exported r = existsb (fun c => fst c && snd c) calls.
Proof.
  cbv zeta. rewrite register_calls by now left. simpl.
  destruct (existsb _ calls); auto.
Qed.

End SourceHandlerProperties.

Section PluginProperties.

Import Html5Hlsjs Provider HLSJSConfigHandler.

Variable engine : Hls.reaction.

Lemma constructor_keeps supported html5 o h :
  (forall c, player_srOptions_ h ≫= sr_hlsjsConfig = Some c ->
             player_srOptions_ (constructor supported html5 o h)
               ≫= sr_hlsjsConfig = Some c)
  /\ (forall f, player_srOptions_ h ≫= sr_levelLabelHandler = Some f ->
                player_srOptions_ (constructor supported html5 o h)
                  ≫= sr_levelLabelHandler = Some f).
Proof.
  destruct o as [o|]; [|split; auto].
  destruct h as [[[cfg lab]|] prov drop reg].
  - split; intros x Hx; simpl in Hx; subst; simpl;
      destruct (levelLabelHandler o); try destruct cfg; try destruct lab;
      simpl; congruence.
  - split; intros x Hx; discriminate Hx.
Qed.

(** X23.  The options of the first plugin instance win: a configuration or
    a label handler that the player holds is kept by every later
    construction of the plugin, whatever its options.  After [dispose] the
    next construction takes both from its own options. *)
Theorem first_options_win
    (calls : list (bool * bool * option options)) (h : host) (o : options) :
  let construct_all :=
    List.fold_left (fun h c => constructor (fst (fst c)) (snd (fst c)) (snd c) h) in
  (forall c, player_srOptions_ h ≫= sr_hlsjsConfig = Some c ->
             player_srOptions_ (construct_all calls h) ≫= sr_hlsjsConfig
             = Some c)
  /\ (forall f, player_srOptions_ h ≫= sr_levelLabelHandler = Some f ->
                player_srOptions_ (construct_all calls h)
                  ≫= sr_levelLabelHandler = Some f)
  /\ (forall supported html5,
        player_srOptions_
          (constructor supported html5 (Some o) (dispose engine h))
        = Some (mkSrOptions (hlsjsConfig o) (levelLabelHandler o))).
Proof.
  cbv zeta. split; [|split].
  - revert h. induction calls as [|[[sup html] o'] calls IH]; intros h c Hc;
      simpl; [exact Hc|].
    apply IH. now apply constructor_keeps.
  - revert h. induction calls as [|[[sup html] o'] calls IH]; intros h f Hf;
      simpl; [exact Hf|].
    apply IH. now apply constructor_keeps.
  - intros sup html. simpl. now destruct (levelLabelHandler o).
Qed.

(** X24.  [_initHlsjs] keeps an [autoStartLoad] that the configuration
    defines, and defines it, as false, only when [preload] of the element
    is empty or [auto] and the element does not play by itself; the other
    keys are those of the configuration of the player or, when the player
    has none, of the tech. *)
Theorem initial_autoStartLoad (x : site) :
  let given := default empty_config (hlsjsConfigRef x) in
  (forall b, autoStartLoad given = Some b ->
             autoStartLoad (initial_config x) = Some b)
  /\ (autoStartLoad given = None ->
      autoStartLoad (initial_config x)
      = if (String.eqb (preload x) "" || String.eqb (preload x) "auto")
           && negb (autoplay x)
        then Some false else None)
  /\ core_config (initial_config x) = core_config given
  /\ (forall sr c, srOptions_ x = Some sr -> sr_hlsjsConfig sr = Some c ->
                   hlsjsConfigRef x = Some c).
Proof.
  cbv zeta. unfold initial_config. repeat split.
  - intros b Hb. rewrite Hb. now rewrite Bool.andb_false_r.
  - intros Hn. rewrite Hn, Bool.andb_true_r.
    now destruct (_ && _).
  - now destruct (_ && _).
  - intros sr c Hsr Hc. unfold hlsjsConfigRef. rewrite Hsr. simpl. now rewrite Hc.
Qed.

Variable player_srOptions : option srOptions.
Variable localize : string -> string.
Variable kbps : Z -> string.

Local Abbreviation handle := (Provider.handle engine player_srOptions localize kbps).

(** X25.  A provider whose engine was configured with [autoStartLoad]
    false starts loading at the first [play] event of the element, with
    [startLoad(-1)], and at no later one; if it is disposed of before, no
    [play] event starts loading.  A provider configured otherwise ignores
    [play] events. *)
Theorem deferred_load_starts_once
    (hooks : gmap string (list Hooks.callback)) (x : site) (e : Hls.props)
    (tech : tech_object) (p : PodResolutionsPlugin.t)
    (pending : list timeout) (onLine : bool) :
  let i := construct hooks x e tech p pending onLine in
  (autoStartLoad (engine_config i) = Some false ->
   let s1 := handle (state i) video_play in
   hls_calls (hls s1) = [Hls.startLoad (Some (-1))]
   /\ handle s1 video_play = s1
   /\ handle (Html5Hlsjs.dispose engine (state i)) video_play
      = Html5Hlsjs.dispose engine (state i))
  /\ (autoStartLoad (engine_config i) <> Some false ->
      handle (state i) video_play = state i).
Proof.
  cbv zeta. unfold construct. simpl. split.
  - intros ->. repeat split.
  - intros H. destruct (autoStartLoad (initial_config x)) as [[|]|];
      try reflexivity. contradiction.
Qed.

End PluginProperties.

Section PluginExamples.

Import Html5Hlsjs Provider HLSJSConfigHandler MoreExamples.

Lemma deferred_load_starts_once_witness :
  hls_calls
    (hls (handle Hls.reference None english thousandths
            (state (a_provider deferred_site)) video_play))
  = [Hls.startLoad (Some (-1))].
Proof.
  apply (deferred_load_starts_once Hls.reference None english thousandths
           ∅ deferred_site (Hls.mkProps [level_720; level_1080] 0 true)
           (mkTech None []) PodResolutionsPlugin.init [] true).
  reflexivity.
Defined.

End PluginExamples.

(** ** The further properties on the example sessions *)

Section MoreWitnesses.

Import Html5Hlsjs Spec Provider Examples MoreExamples.

Lemma fragment_restarts_the_count_witness :
  tech (errors Hls.reference 5 network_error
          (emit_FRAG_LOADED Hls.reference
             (errors Hls.reference 2 network_error one_level)))
  = tech one_level.
Proof.
  apply (fragment_restarts_the_count Hls.reference network_error one_level 2 5).
  - reflexivity.
  - reflexivity.
  - reflexivity.
  - lia.
  - vm_compute. discriminate.
  - vm_compute. discriminate.
Defined.

Lemma live_ceiling_witness :
  tech (errors Hls.reference 30 network_error
          (on_LEVEL_LOADED (mkLevelDetails true 0 6) one_level))
  = tech one_level.
Proof.
  assert (occurrence Hls.ErrorTypes.NETWORK_ERROR one_level = 1) as H1
    by reflexivity.
  destruct (live_ceiling Hls.reference (mkLevelDetails true 0 6) network_error
              one_level eq_refl eq_refl eq_refl H1) as (H & _ & _).
  apply (H 30%nat). lia.
Defined.

Lemma media_ladder_is_never_reset_witness :
  tech_triggered
    (tech (_onError Hls.reference media_error
             (handle_all Hls.reference (Some plain_options) english thousandths
                [FRAG_LOADED; LEVEL_LOADED (mkLevelDetails false 600 6);
                 time_passes 5000]
                (errors Hls.reference 2 media_error one_level))))
  = ["error"%string].
Proof.
  rewrite (proj2 (media_ladder_is_never_reset Hls.reference
                    (Some plain_options) english thousandths
                    [FRAG_LOADED; LEVEL_LOADED (mkLevelDetails false 600 6);
                     time_passes 5000]
                    (errors Hls.reference 2 media_error one_level))
             media_error).
  - reflexivity.
  - reflexivity.
  - reflexivity.
  - apply String.eqb_neq. reflexivity.
  - vm_compute. discriminate.
Defined.

Lemma element_errors_are_not_counted_witness :
  hls_calls
    (hls (Nat.iter 3 (handlers_error Hls.reference (Some decode_error))
            (errors Hls.reference 1 media_error one_level)))
  = replicate 4 Hls.recoverMediaError.
Proof.
  destruct (element_errors_are_not_counted Hls.reference decode_error
              (errors Hls.reference 1 media_error one_level) 3)
    as (_ & _ & H).
  destruct H as (Hc & _); [reflexivity|reflexivity|].
  rewrite Hc. reflexivity.
Defined.

Lemma manifest_fills_an_empty_registry_witness :
  last (PodResolutionsPlugin.resolutions
          (podResolutions
             (state_of
                (_onMetaData (Some plain_options) english thousandths
                   [level_720; level_audio; level_1080] (-1)
                   (state (a_provider deferred_site))))))
  = Some (auto_resolution english).
Proof.
  apply (manifest_fills_an_empty_registry english thousandths plain_options
           [level_720; level_audio; level_1080] (-1)
           (state (a_provider deferred_site))).
  reflexivity.
Defined.

Lemma first_level_switch_witness :
  Forall (fun r => PodResolutionsPlugin.selected r
                   = (PodResolutionsPlugin.id r =? -1))
    (PodResolutionsPlugin.resolutions
       (podResolutions
          (on_LEVEL_SWITCHING 1
             (state_of
                (_onMetaData (Some plain_options) english thousandths
                   [level_720; level_1080] (-1)
                   (state (a_provider deferred_site))))))).
Proof.
  apply (first_level_switch english thousandths plain_options
           [level_720; level_1080] (-1) 1 (state (a_provider deferred_site))).
  intros n. vm_compute. discriminate.
Defined.

Lemma manifest_without_srOptions_witness :
  _onMetaData None english thousandths [level_720; level_1080] (-1)
    (state (a_provider deferred_site))
  = TypeError (state (a_provider deferred_site)).
Proof.
  apply manifest_without_srOptions. discriminate.
Defined.

Lemma manifest_adds_every_level_again_witness :
  ~ distinct_ids
      (PodResolutionsPlugin.resolutions
         (podResolutions
            (state_of
               (_onMetaData (Some plain_options) english thousandths
                  [level_720] (-1) one_level)))).
Proof.
  apply (manifest_adds_every_level_again english thousandths plain_options
           [level_720] (-1) one_level).
  vm_compute. auto.
Defined.

Lemma duration_after_level_loaded_witness :
  duration (Some (Seconds 42))
    (on_LEVEL_LOADED (mkLevelDetails true 0 6) one_level)
  = Infinity.
Proof.
  apply (proj1 (duration_after_level_loaded (mkLevelDetails true 0 6) one_level)).
  reflexivity.
Defined.

Lemma initial_autoStartLoad_witness :
  autoStartLoad (initial_config deferred_site) = Some false
  /\ autoStartLoad (initial_config eager_site) = Some true.
Proof.
  split.
  - rewrite (proj1 (proj2 (initial_autoStartLoad deferred_site)));
      reflexivity.
  - apply (proj1 (initial_autoStartLoad eager_site)). reflexivity.
Defined.

End MoreWitnesses.
